(** * CardPro icon generator: a shallow embedding of [scripts/generate_icon.py]

    The script builds one RGBA raster ([create_app_icon]) and writes it,
    with a fixed asset-catalog descriptor, to disk ([main]).

    - Python [int] is [Z]; Python [float] is IEEE-754 binary64, here the
      primitive [float] of Rocq, so every arithmetic step rounds as it does
      in the interpreter.
    - Exceptions and the process environment (file system, standard output)
      are threaded through a state-and-exception monad [M].
    - The imaging library is outside the repository.  What its entry points
      do to the *dimensions* and to the *stored colour* is fixed by its
      documentation and is modelled directly; which pixels a curved shape
      or a resampling filter touches is a parameter ([rasterizer]). *)

From Stdlib Require Import ZArith List String Ascii Bool Lia QArith Qabs Floats.
From stdpp Require Import gmap strings.

Set Warnings "-inexact-float,-register-all".
Local Open Scope Z_scope.

(** ** Pixels and images *)

Definition rgba : Type := Z * Z * Z * Z.

Definition red (p : rgba) : Z := let '(r, _, _, _) := p in r.
Definition green (p : rgba) : Z := let '(_, g, _, _) := p in g.
Definition blue (p : rgba) : Z := let '(_, _, b, _) := p in b.
Definition alpha (p : rgba) : Z := let '(_, _, _, a) := p in a.

(** An RGBA raster.  [pixel_at] is meaningful for [0 <= x < width] and
    [0 <= y < height] only. *)
Record image : Type := Image {
  width : Z;
  height : Z;
  pixel_at : Z -> Z -> rgba
}.

Definition in_image (img : image) (x y : Z) : bool :=
  (0 <=? x) && (x <? width img) && (0 <=? y) && (y <? height img).

(** ** Exceptions, the environment and the monad *)

Inductive exn : Set :=
| ZeroDivisionError
| IndexError
| ValueError
| FileNotFoundError
| IsADirectoryError
| PermissionError.

(** A path is the list of its components below the root. *)
Definition path : Type := list string.

Inductive file : Type :=
| PngFile (raster : image)
| TextFile (text : string).

Record world : Type := World {
  script_file : path;            (* [os.path.abspath(__file__)] *)
  dirs : gset path;              (* existing directories *)
  locked : gset path;            (* paths the process may not write *)
  files : gmap path file;
  stdout : list string
}.

Inductive outcome (A : Type) : Type :=
| Returned (a : A) (w : world)
| Raised (e : exn) (w : world).
Arguments Returned {A} a w.
Arguments Raised {A} e w.

Definition M (A : Type) : Type := world -> outcome A.

Definition ret {A} (a : A) : M A := fun w => Returned a w.
Definition raise {A} (e : exn) : M A := fun w => Raised e w.
Definition bind {A B} (c : M A) (k : A -> M B) : M B :=
  fun w => match c w with
           | Returned a w' => k a w'
           | Raised e w' => Raised e w'
           end.

Notation "x <- c1 ;; c2" := (bind c1 (fun x => c2))
  (at level 100, c1 at next level, right associativity).
Notation "c1 ;;; c2" := (bind c1 (fun _ => c2))
  (at level 100, right associativity).

(** [for i in range(stop): s = body(i, s)] *)
Fixpoint for_loop {S : Type} (n : nat) (i : Z) (body : Z -> S -> M S) (s : S) : M S :=
  match n with
  | O => ret s
  | Datatypes.S n' => s' <- body i s ;; for_loop n' (i + 1) body s'
  end.

Definition for_range {S : Type} (stop : Z) (body : Z -> S -> M S) (s : S) : M S :=
  for_loop (Z.to_nat stop) 0 body s.

(** ** Numbers *)

(** [float(n)] for an integer operand of a mixed expression: the nearest
    binary64, ties to even.  (The interpreter raises OverflowError from
    [2^1024] on; the model saturates to infinity there.) *)
Definition float_of_int (n : Z) : float :=
  SF2Prim (binary_normalize prec emax n 0 false).

(** [int(f)]: truncation toward zero.  (The interpreter raises on nan and
    on the infinities; the model answers 0 there.) *)
Definition int_of_float (f : float) : Z :=
  match Prim2SF f with
  | S754_finite s m e =>
      cond_Zopp s
        (match e with
         | Zneg p => Z.shiftr (Zpos m) (Zpos p)
         | _ => Z.shiftl (Zpos m) e
         end)
  | _ => 0
  end.

(** The exact rational a finite binary64 stands for. *)
Definition float_value (f : float) : option Q :=
  match Prim2SF f with
  | S754_zero _ => Some (0 # 1)%Q
  | S754_finite s m e =>
      Some (match e with
            | Zneg p => Qmake (cond_Zopp s (Zpos m)) (2 ^ p)%positive
            | _ => inject_Z (cond_Zopp s (Z.shiftl (Zpos m) e))
            end)
  | _ => None
  end.

(** [n ** 0.5] on a non-negative integer, taken as the correctly rounded
    square root of [float(n)]. *)
Definition pow_half (n : Z) : float := PrimFloat.sqrt (float_of_int n).

(** [a / b] on integers (true division; exact operands below [2^53]). *)
Definition true_div (a b : Z) : M float :=
  if b =? 0 then raise ZeroDivisionError
  else ret (float_of_int a / float_of_int b)%float.

(** [a / b] on floats. *)
Definition float_div (a b : float) : M float :=
  if (b =? 0)%float then raise ZeroDivisionError else ret (a / b)%float.

(** A coordinate handed to a drawing call: the script passes integers and,
    for the text bars and the arcs, floats. *)
Inductive num : Type :=
| Int (n : Z)
| Float (f : float).

Definition box : Type := num * num * num * num.

(** ** The imaging library *)

(** Coverage of the shapes whose scan conversion is the library's own
    business, and the resampling filter of [rotate].  A drawing call is
    taken to return for every box it is given: the library's validation of
    its arguments is not part of the model. *)
Record rasterizer : Type := Rasterizer {
  (* box, corner radius, pixel *)
  rounded_rectangle_cover : box -> Z -> Z -> Z -> bool;
  (* box, pixel *)
  ellipse_cover : box -> Z -> Z -> bool;
  (* box, start angle, end angle, stroke width, pixel *)
  arc_cover : box -> Z -> Z -> Z -> Z -> Z -> bool;
  (* angle in degrees, centre, source image, pixel of the result *)
  rotate_sample : Z -> Z * Z -> image -> Z -> Z -> rgba
}.

(** [Image.new('RGBA', (w, h), color)] *)
Definition Image_new (w h : Z) (color : rgba) : M image :=
  if (w <? 0) || (h <? 0) then raise ValueError
  else ret (Image w h (fun _ _ => color)).

(** A negative index counts from the far edge. *)
Definition wrap_index (i n : Z) : Z := if i <? 0 then n + i else i.

(** [img.getpixel((x, y))] *)
Definition getpixel (img : image) (xy : Z * Z) : M rgba :=
  let x := wrap_index (fst xy) (width img) in
  let y := wrap_index (snd xy) (height img) in
  if in_image img x y then ret (pixel_at img x y) else raise IndexError.

(** [img.putpixel((x, y), value)], the image being updated in place. *)
Definition putpixel (img : image) (xy : Z * Z) (value : rgba) : M image :=
  let x := wrap_index (fst xy) (width img) in
  let y := wrap_index (snd xy) (height img) in
  if in_image img x y then
    ret (Image (width img) (height img)
           (fun x' y' => if (x' =? x) && (y' =? y) then value else pixel_at img x' y'))
  else raise IndexError.

(** A drawing call on an RGBA image stores its ink in the covered pixels:
    the four bands are written as given, nothing is blended. *)
Definition paint (cover : Z -> Z -> bool) (ink : rgba) (img : image) : image :=
  Image (width img) (height img)
    (fun x y => if cover x y then ink else pixel_at img x y).

(** [draw.line([(x0, y), (x1, y)], fill)]: a horizontal run, ends included. *)
Definition draw_line (img : image) (x0 x1 y : Z) (fill : rgba) : image :=
  paint (fun x y' => (y' =? y) && (Z.min x0 x1 <=? x) && (x <=? Z.max x0 x1)) fill img.

(** [draw.rectangle((x0, y0, x1, y1), fill)] on integer corners, both
    corners included. *)
Definition draw_rectangle (img : image) (xy : Z * Z * Z * Z) (fill : rgba) : image :=
  let '(x0, y0, x1, y1) := xy in
  paint (fun x y => (x0 <=? x) && (x <=? x1) && (y0 <=? y) && (y <=? y1)) fill img.

(** [draw.rounded_rectangle(xy, radius, fill)] *)
Definition draw_rounded_rectangle (R : rasterizer) (img : image) (xy : box) (radius : Z)
    (fill : rgba) : image :=
  paint (rounded_rectangle_cover R xy radius) fill img.

(** [draw.ellipse(xy, fill)] *)
Definition draw_ellipse (R : rasterizer) (img : image) (xy : box) (fill : rgba) : image :=
  paint (ellipse_cover R xy) fill img.

(** [draw.arc(xy, start, end, fill, width)] *)
Definition draw_arc (R : rasterizer) (img : image) (xy : box) (start stop : Z)
    (fill : rgba) (stroke : Z) : image :=
  paint (arc_cover R xy start stop stroke) fill img.

(** [img.rotate(angle, resample=BICUBIC, center=c)]: [expand] is left
    unset, so the result has the dimensions of the source. *)
Definition Image_rotate (R : rasterizer) (img : image) (angle : Z) (center : Z * Z) : image :=
  Image (width img) (height img) (rotate_sample R angle center img).

(** [Image.alpha_composite(dst, src)], in the library's integer arithmetic
    (7 extra bits of precision, division by 255 through shifts). *)
Definition u32 (a : Z) : Z := a mod 2 ^ 32.
Definition u8 (a : Z) : Z := a mod 2 ^ 8.
Definition shift_for_div255 (a : Z) : Z := Z.shiftr (Z.shiftr a 8 + a) 8.

Definition composite_pixel (dst src : rgba) : rgba :=
  let '(dr, dg, db, da) := dst in
  let '(sr, sg, sb, sa) := src in
  if sa =? 0 then dst
  else
    let blend := u32 (da * (255 - sa)) in
    let outa255 := u32 (sa * 255 + blend) in
    let coef1 := u32 (sa * 255 * 255 * 2 ^ 7) / outa255 in
    let coef2 := u32 (255 * 2 ^ 7 - coef1) in
    let band s d :=
      u8 (Z.shiftr (shift_for_div255 (u32 (u32 (s * coef1 + d * coef2) + 128 * 2 ^ 7))) 7) in
    (band sr dr, band sg dg, band sb db, u8 (shift_for_div255 (u32 (outa255 + 128)))).

Definition composite (dst src : image) : image :=
  Image (width dst) (height dst)
    (fun x y => composite_pixel (pixel_at dst x y) (pixel_at src x y)).

Definition alpha_composite (dst src : image) : M image :=
  if (width dst =? width src) && (height dst =? height src) then ret (composite dst src)
  else raise ValueError.

(** ** [create_app_icon] *)

Section Script.

Variable R : rasterizer.

(** *** Background gradient (deep blue to teal) *)

Definition gradient_row (size y : Z) (img : image) : M image :=
  ratio <- true_div y size ;;
  let r := int_of_float (20 + float_of_int (40 - 20) * ratio) in
  let g := int_of_float (60 + float_of_int (140 - 60) * ratio) in
  let b := int_of_float (120 + float_of_int (160 - 120) * ratio) in
  ret (draw_line img 0 size y (r, g, b, 255)).

Definition gradient_background (size : Z) (img : image) : M image :=
  for_range size (gradient_row size) img.

(** *** Radial overlay *)

Definition max_dist (size : Z) : float := (float_of_int (size / 2) * 1.2)%float.

Definition dist (size x y : Z) : float :=
  let center_x := size / 2 in
  let center_y := size / 2 in
  pow_half ((x - center_x) ^ 2 + (y - center_y) ^ 2).

(** One band of [new_pixel]. *)
Definition lighten (d md factor : float) (c : Z) : M Z :=
  q <- float_div d md ;;
  ret (Z.min 255 (int_of_float (float_of_int c * factor + 30 * (1 - q)))).

Definition overlay_pixel (size y x : Z) (img : image) : M image :=
  let d := dist size x y in
  let md := max_dist size in
  if (d <? md)%float then
    q <- float_div d md ;;
    let factor := (1 - q * 0.3)%float in
    pixel <- getpixel img (x, y) ;;
    r <- lighten d md factor (red pixel) ;;
    g <- lighten d md factor (green pixel) ;;
    b <- lighten d md factor (blue pixel) ;;
    putpixel img (x, y) (r, g, b, 255)
  else ret img.

Definition radial_overlay (size : Z) (img : image) : M image :=
  for_range size (fun y => for_range size (overlay_pixel size y)) img.

(** *** Card dimensions and offsets, each a function of [size] *)

Definition card_width (size : Z) : Z := int_of_float (float_of_int size * 0.55).
Definition card_height (size : Z) : Z :=
  int_of_float (float_of_int (card_width size) * 0.6).
Definition corner_radius (size : Z) : Z := int_of_float (float_of_int size * 0.03).
Definition back_x (size : Z) : Z := int_of_float (float_of_int size * 0.28).
Definition back_y (size : Z) : Z := int_of_float (float_of_int size * 0.32).
Definition shadow_offset (size : Z) : Z := int_of_float (float_of_int size * 0.015).
Definition accent_height (size : Z) : Z :=
  int_of_float (float_of_int (card_height size) * 0.15).
Definition front_x (size : Z) : Z := int_of_float (float_of_int size * 0.22).
Definition front_y (size : Z) : Z := int_of_float (float_of_int size * 0.38).
Definition bar_width (size : Z) : Z :=
  int_of_float (float_of_int (card_width size) * 0.04).
Definition indicator_size (size : Z) : Z := int_of_float (float_of_int size * 0.12).
Definition indicator_x (size : Z) : Z := int_of_float (float_of_int size * 0.78).
Definition indicator_y (size : Z) : Z := int_of_float (float_of_int size * 0.12).
Definition arc_width (size : Z) : Z := int_of_float (float_of_int size * 0.012).
Definition dot_radius (size : Z) : Z := int_of_float (float_of_int size * 0.015).

Definition int_box (x0 y0 x1 y1 : Z) : box := (Int x0, Int y0, Int x1, Int y1).

(** The nested helper of the script. *)
Definition draw_rounded_rect (img : image) (xy : box) (radius : Z) (fill : rgba) : image :=
  draw_rounded_rectangle R img xy radius fill.

(** *** Back card *)

Definition draw_back_card (size : Z) (back_card_img : image) : image :=
  let card_width := card_width size in
  let card_height := card_height size in
  let corner_radius := corner_radius size in
  let back_x := back_x size in
  let back_y := back_y size in
  let shadow_offset := shadow_offset size in
  (* shadow *)
  let img := draw_rounded_rect back_card_img
               (int_box (back_x + shadow_offset) (back_y + shadow_offset)
                        (back_x + card_width + shadow_offset)
                        (back_y + card_height + shadow_offset))
               corner_radius (0, 0, 0, 60) in
  (* card body *)
  let img := draw_rounded_rect img
               (int_box back_x back_y (back_x + card_width) (back_y + card_height))
               corner_radius (240, 240, 245, 255) in
  (* accent line *)
  let accent_height := accent_height size in
  let img := draw_rounded_rectangle R img
               (int_box back_x back_y (back_x + card_width) (back_y + accent_height))
               corner_radius (100, 160, 200, 255) in
  (* bottom corners of the accent *)
  let img := draw_rectangle img
               (back_x, back_y + accent_height - corner_radius,
                back_x + card_width, back_y + accent_height)
               (100, 160, 200, 255) in
  img.

Definition back_card (size : Z) : M image :=
  back_card_img <- Image_new size size (0, 0, 0, 0) ;;
  let back_card_img := draw_back_card size back_card_img in
  (* rotate back card slightly *)
  ret (Image_rotate R back_card_img (-8) (size / 2, size / 2)).

(** *** Front card *)

Definition draw_front_card (size : Z) (front_card_img : image) : image :=
  let card_width := card_width size in
  let card_height := card_height size in
  let corner_radius := corner_radius size in
  let shadow_offset := shadow_offset size in
  let front_x := front_x size in
  let front_y := front_y size in
  (* shadow *)
  let img := draw_rounded_rect front_card_img
               (int_box (front_x + shadow_offset * 2) (front_y + shadow_offset * 2)
                        (front_x + card_width + shadow_offset * 2)
                        (front_y + card_height + shadow_offset * 2))
               corner_radius (0, 0, 0, 80) in
  (* card body *)
  let img := draw_rounded_rect img
               (int_box front_x front_y (front_x + card_width) (front_y + card_height))
               corner_radius (255, 255, 255, 255) in
  (* left bar *)
  let bar_width := bar_width size in
  let img := draw_rounded_rectangle R img
               (int_box front_x front_y (front_x + bar_width + corner_radius)
                        (front_y + card_height))
               corner_radius (30, 100, 160, 255) in
  let img := draw_rectangle img
               (front_x + bar_width, front_y,
                front_x + bar_width + corner_radius, front_y + card_height)
               (30, 100, 160, 255) in
  (* placeholder lines *)
  let line_color := (180, 180, 190, 255) in
  let line_x := front_x + int_of_float (float_of_int card_width * 0.15) in
  let line_y := front_y + int_of_float (float_of_int card_height * 0.25) in
  let line_width := int_of_float (float_of_int card_width * 0.5) in
  let line_height := int_of_float (float_of_int card_height * 0.08) in
  (* name line *)
  let img := draw_rounded_rectangle R img
               (int_box line_x line_y (line_x + line_width) (line_y + line_height))
               (line_height / 2) (60, 60, 70, 255) in
  (* title line *)
  let line_y := line_y + int_of_float (float_of_int card_height * 0.18) in
  let img := draw_rounded_rectangle R img
               (Int line_x, Int line_y,
                Float (float_of_int line_x + float_of_int line_width * 0.7),
                Float (float_of_int line_y + float_of_int line_height * 0.6))
               (line_height / 3) line_color in
  (* contact lines *)
  let line_y := line_y + int_of_float (float_of_int card_height * 0.22) in
  let img := draw_rounded_rectangle R img
               (Int line_x, Int line_y,
                Float (float_of_int line_x + float_of_int line_width * 0.6),
                Float (float_of_int line_y + float_of_int line_height * 0.5))
               (line_height / 4) line_color in
  let line_y := line_y + int_of_float (float_of_int card_height * 0.12) in
  let img := draw_rounded_rectangle R img
               (Int line_x, Int line_y,
                Float (float_of_int line_x + float_of_int line_width * 0.75),
                Float (float_of_int line_y + float_of_int line_height * 0.5))
               (line_height / 4) line_color in
  img.

Definition front_card (size : Z) : M image :=
  front_card_img <- Image_new size size (0, 0, 0, 0) ;;
  let front_card_img := draw_front_card size front_card_img in
  (* rotate front card slightly *)
  ret (Image_rotate R front_card_img 5 (size / 2, size / 2)).

(** *** Wireless indicator, drawn on the composited image *)

Definition wave_color : rgba := (255, 255, 255, 180).

Definition wave_box (size : Z) (radius : float) : box :=
  let center_x := indicator_x size in
  let center_y := indicator_y size + indicator_size size / 2 in
  (Float (float_of_int center_x - radius), Float (float_of_int center_y - radius),
   Float (float_of_int center_x + radius), Float (float_of_int center_y + radius)).

Definition wave_radii (size : Z) : list float :=
  [ (float_of_int (indicator_size size) * 0.3)%float;
    (float_of_int (indicator_size size) * 0.5)%float;
    (float_of_int (indicator_size size) * 0.7)%float ].

Definition dot_box (size : Z) : box :=
  let center_x := indicator_x size in
  let center_y := indicator_y size + indicator_size size / 2 in
  let dot_radius := dot_radius size in
  int_box (center_x - dot_radius) (center_y - dot_radius)
          (center_x + dot_radius) (center_y + dot_radius).

Definition draw_indicator (size : Z) (img : image) : image :=
  let img :=
    fold_left (fun im radius => draw_arc R im (wave_box size radius) 300 60 wave_color
                                  (arc_width size))
              (wave_radii size) img in
  draw_ellipse R img (dot_box size) wave_color.

(** *** The compositor *)

Definition background (size : Z) : M image :=
  img <- Image_new size size (0, 0, 0, 0) ;;
  img <- gradient_background size img ;;
  radial_overlay size img.

Definition create_app_icon (size : Z) : M image :=
  img <- background size ;;
  back_card_img <- back_card size ;;
  front_card_img <- front_card size ;;
  img <- alpha_composite img back_card_img ;;
  img <- alpha_composite img front_card_img ;;
  ret (draw_indicator size img).

End Script.

(** ** [main] *)

(** [os.path.dirname], [os.path.join] on component lists. *)
Definition dirname (p : path) : path := removelast p.
Definition join (p : path) (parts : list string) : path := (p ++ parts)%list.

Definition path_string (p : path) : string :=
  String.append "/" (String.concat "/" p).

Definition set_files (w : world) (fs : gmap path file) : world :=
  World (script_file w) (dirs w) (locked w) fs (stdout w).

(** [print(s)] *)
Definition print (s : string) : M unit :=
  fun w => Returned tt (World (script_file w) (dirs w) (locked w) (files w)
                          (stdout w ++ [s])%list).

(** Opening [p] for writing and storing [content]: whatever [p] held is
    replaced.  The write fails when [p] names a directory, when the
    directory of [p] does not exist, or when the process may not write [p];
    the file system is then left as it was. *)
Definition write_file (p : path) (content : file) : M unit :=
  fun w =>
    if decide (p ∈ dirs w) then Raised IsADirectoryError w
    else if decide (dirname p ∈ dirs w) then
      if decide (p ∈ locked w) then Raised PermissionError w
      else Returned tt (set_files w (<[p := content]> (files w)))
    else Raised FileNotFoundError w.

(** [icon.save(output_path, 'PNG')] *)
Definition Image_save (img : image) (p : path) : M unit := write_file p (PngFile img).

Definition dquote : string := String (ascii_of_nat 34) EmptyString.
Definition newline : string := String (ascii_of_nat 10) EmptyString.
Definition quoted (s : string) : string := String.append dquote (String.append s dquote).

(** The triple-quoted literal of the script, line by line. *)
Definition contents_json : string :=
  String.concat newline
    [ "{";
      String.concat "" ["  "; quoted "images"; " : ["];
      "    {";
      String.concat "" ["      "; quoted "filename"; " : "; quoted "AppIcon.png"; ","];
      String.concat "" ["      "; quoted "idiom"; " : "; quoted "universal"; ","];
      String.concat "" ["      "; quoted "platform"; " : "; quoted "ios"; ","];
      String.concat "" ["      "; quoted "size"; " : "; quoted "1024x1024"];
      "    }";
      "  ],";
      String.concat "" ["  "; quoted "info"; " : {"];
      String.concat "" ["    "; quoted "author"; " : "; quoted "xcode"; ","];
      String.concat "" ["    "; quoted "version"; " : 1"];
      "  }";
      "}" ]%string.

Definition output_dir (w : world) : path :=
  let script_dir := dirname (script_file w) in
  let project_dir := dirname script_dir in
  join project_dir ["CardPro"; "Resources"; "Assets.xcassets"; "AppIcon.appiconset"]%string.

Definition output_path (w : world) : path := join (output_dir w) ["AppIcon.png"%string].
Definition contents_path (w : world) : path := join (output_dir w) ["Contents.json"%string].

Definition main (R : rasterizer) : M unit :=
  fun w0 =>
    (print "Generating CardPro App Icon..." ;;;
     icon <- create_app_icon R 1024 ;;
     Image_save icon (output_path w0) ;;;
     print (String.append "Saved: " (path_string (output_path w0))) ;;;
     write_file (contents_path w0) (TextFile contents_json) ;;;
     print (String.append "Updated: " (path_string (contents_path w0))) ;;;
     print "Done! App icon generated successfully.") w0.

(** ** Reading the descriptor back *)

Inductive json : Type :=
| JNull
| JBool (b : bool)
| JNumber (n : Z)
| JString (s : string)
| JArray (items : list json)
| JObject (members : list (string * json)).

Definition is_space (c : ascii) : bool :=
  let n := nat_of_ascii c in
  (n =? 32)%nat || (n =? 10)%nat || (n =? 13)%nat || (n =? 9)%nat.

Fixpoint skip_ws (s : string) : string :=
  match s with
  | String c r => if is_space c then skip_ws r else s
  | EmptyString => s
  end.

(** The characters up to the closing quote (no escape sequences). *)
Fixpoint read_string (s : string) : option (string * string) :=
  match s with
  | EmptyString => None
  | String c r =>
      if (nat_of_ascii c =? 34)%nat then Some (EmptyString, r)
      else if (nat_of_ascii c =? 92)%nat then None
      else match read_string r with
           | Some (t, r') => Some (String c t, r')
           | None => None
           end
  end.

Definition digit_of (c : ascii) : option Z :=
  let n := nat_of_ascii c in
  if (48 <=? n)%nat && (n <=? 57)%nat then Some (Z.of_nat n - 48) else None.

Fixpoint read_digits (acc : Z) (s : string) : Z * string :=
  match s with
  | String c r =>
      match digit_of c with
      | Some d => read_digits (10 * acc + d) r
      | None => (acc, s)
      end
  | EmptyString => (acc, s)
  end.

Definition starts_with (p s : string) : option string :=
  if String.prefix p s then Some (String.substring (String.length p)
                                    (String.length s - String.length p) s)
  else None.

Fixpoint read_value (fuel : nat) (s : string) : option (json * string) :=
  match fuel with
  | O => None
  | Datatypes.S fuel' =>
      match skip_ws s with
      | String c r =>
          let n := nat_of_ascii c in
          if (n =? 34)%nat then
            match read_string r with
            | Some (t, r') => Some (JString t, r')
            | None => None
            end
          else if (n =? 91)%nat then
            match skip_ws r with
            | String c' r' =>
                if (nat_of_ascii c' =? 93)%nat then Some (JArray [], r')
                else match read_items fuel' r with
                     | Some (l, r'') => Some (JArray l, r'')
                     | None => None
                     end
            | EmptyString => None
            end
          else if (n =? 123)%nat then
            match skip_ws r with
            | String c' r' =>
                if (nat_of_ascii c' =? 125)%nat then Some (JObject [], r')
                else match read_members fuel' r with
                     | Some (l, r'') => Some (JObject l, r'')
                     | None => None
                     end
            | EmptyString => None
            end
          else if (n =? 45)%nat then
            match r with
            | String d _ =>
                match digit_of d with
                | Some _ => let '(v, r') := read_digits 0 r in Some (JNumber (- v), r')
                | None => None
                end
            | EmptyString => None
            end
          else
            match digit_of c with
            | Some _ => let '(v, r') := read_digits 0 (String c r) in Some (JNumber v, r')
            | None =>
                match starts_with "true" (String c r) with
                | Some r' => Some (JBool true, r')
                | None =>
                    match starts_with "false" (String c r) with
                    | Some r' => Some (JBool false, r')
                    | None =>
                        match starts_with "null" (String c r) with
                        | Some r' => Some (JNull, r')
                        | None => None
                        end
                    end
                end
            end
      | EmptyString => None
      end
  end
with read_items (fuel : nat) (s : string) : option (list json * string) :=
  match fuel with
  | O => None
  | Datatypes.S fuel' =>
      match read_value fuel' s with
      | Some (v, r) =>
          match skip_ws r with
          | String c r' =>
              if (nat_of_ascii c =? 44)%nat then
                match read_items fuel' r' with
                | Some (l, r'') => Some (v :: l, r'')
                | None => None
                end
              else if (nat_of_ascii c =? 93)%nat then Some ([v], r')
              else None
          | EmptyString => None
          end
      | None => None
      end
  end
with read_members (fuel : nat) (s : string) : option (list (string * json) * string) :=
  match fuel with
  | O => None
  | Datatypes.S fuel' =>
      match skip_ws s with
      | String q r =>
          if (nat_of_ascii q =? 34)%nat then
            match read_string r with
            | Some (k, r1) =>
                match skip_ws r1 with
                | String colon r2 =>
                    if (nat_of_ascii colon =? 58)%nat then
                      match read_value fuel' r2 with
                      | Some (v, r3) =>
                          match skip_ws r3 with
                          | String c r4 =>
                              if (nat_of_ascii c =? 44)%nat then
                                match read_members fuel' r4 with
                                | Some (l, r5) => Some ((k, v) :: l, r5)
                                | None => None
                                end
                              else if (nat_of_ascii c =? 125)%nat then Some ([(k, v)], r4)
                              else None
                          | EmptyString => None
                          end
                      | None => None
                      end
                    else None
                | EmptyString => None
                end
            | None => None
            end
          else None
      | EmptyString => None
      end
  end.

(** A whole document: one value, then nothing but white space. *)
Definition parse_json (s : string) : option json :=
  match read_value (String.length s) s with
  | Some (v, r) => match skip_ws r with EmptyString => Some v | _ => None end
  | None => None
  end.

(** The descriptor record of the asset catalog. *)
Definition descriptor : json :=
  JObject
    [ ("images",
       JArray [ JObject [ ("filename", JString "AppIcon.png");
                          ("idiom", JString "universal");
                          ("platform", JString "ios");
                          ("size", JString "1024x1024") ] ]);
      ("info", JObject [ ("author", JString "xcode"); ("version", JNumber 1) ]) ]%string.

(** ** A reference rasterizer

    A plain scan conversion of each shape (pixel centres tested against the
    outline in integer arithmetic) and nearest-neighbour resampling.  It
    makes the pipeline executable; the library's own conversion may differ
    from it in the pixels along an outline. *)

Module Reference.

Definition round_num (v : num) : Z :=
  match v with
  | Int n => n
  | Float f => int_of_float (f + 0.5)
  end.

Definition corners (xy : box) : Z * Z * Z * Z :=
  let '(a, b, c, d) := xy in (round_num a, round_num b, round_num c, round_num d).

Definition inside (x0 y0 x1 y1 x y : Z) : bool :=
  (x0 <=? x) && (x <=? x1) && (y0 <=? y) && (y <=? y1).

(** Distance of [v] into the corner zone of the interval [lo, hi]. *)
Definition corner_offset (lo hi r v : Z) : Z :=
  if v <? lo + r then lo + r - v
  else if hi - r <? v then v - (hi - r)
  else 0.

Definition rounded_rectangle_cover (xy : box) (radius x y : Z) : bool :=
  let '(x0, y0, x1, y1) := corners xy in
  let r := Z.max 0 (Z.min radius (Z.min ((x1 - x0) / 2) ((y1 - y0) / 2))) in
  let dx := corner_offset x0 x1 r x in
  let dy := corner_offset y0 y1 r y in
  inside x0 y0 x1 y1 x y && (dx * dx + dy * dy <=? r * r).

Definition ellipse_cover (xy : box) (x y : Z) : bool :=
  let '(x0, y0, x1, y1) := corners xy in
  let w := x1 - x0 in
  let h := y1 - y0 in
  let dx := 2 * x - x0 - x1 in
  let dy := 2 * y - y0 - y1 in
  inside x0 y0 x1 y1 x y && (dx * dx * (h * h) + dy * dy * (w * w) <=? w * w * (h * h)).

(** Direction of an angle, in thousandths, for the multiples of 30 degrees
    (angles grow clockwise from three o'clock, the y axis pointing down). *)
Definition direction (deg : Z) : Z * Z :=
  match (deg mod 360) / 30 with
  | 0 => (1000, 0)
  | 1 => (866, 500)
  | 2 => (500, 866)
  | 3 => (0, 1000)
  | 4 => (-500, 866)
  | 5 => (-866, 500)
  | 6 => (-1000, 0)
  | 7 => (-866, -500)
  | 8 => (-500, -866)
  | 9 => (0, -1000)
  | 10 => (500, -866)
  | _ => (866, -500)
  end.

Definition cross (a b : Z * Z) : Z := fst a * snd b - snd a * fst b.

Definition in_sweep (start stop : Z) (v : Z * Z) : bool :=
  let s := direction start in
  let e := direction stop in
  if (stop - start) mod 360 <? 180
  then (0 <=? cross s v) && (0 <=? cross v e)
  else negb ((0 <? cross e v) && (0 <? cross v s)).

Definition arc_cover (xy : box) (start stop stroke x y : Z) : bool :=
  let '(x0, y0, x1, y1) := corners xy in
  let outer := x1 - x0 in
  let inner := Z.max 0 (outer - 2 * stroke) in
  let dx := 2 * x - x0 - x1 in
  let dy := 2 * y - y0 - y1 in
  let d2 := dx * dx + dy * dy in
  inside x0 y0 x1 y1 x y && (inner * inner <=? d2) && (d2 <=? outer * outer)
  && in_sweep start stop (dx, dy).

(** Cosine and sine of the two angles the script rotates by. *)
Definition cos_sin (angle : Z) : float * float :=
  if angle =? -8 then (0.9902680687415704, -0.13917310096006544)%float
  else if angle =? 5 then (0.9961946980917455, 0.08715574274765817)%float
  else (1, 0)%float.

Definition rotate_sample (angle : Z) (center : Z * Z) (src : image) (x y : Z) : rgba :=
  let '(c, s0) := cos_sin angle in
  let s := (- s0)%float in
  let cx := float_of_int (fst center) in
  let cy := float_of_int (snd center) in
  let px := (float_of_int x + 0.5)%float in
  let py := (float_of_int y + 0.5)%float in
  let xin := (c * (px - cx) + s * (py - cy) + cx)%float in
  let yin := (c * (py - cy) - s * (px - cx) + cy)%float in
  if (xin <? 0)%float || (yin <? 0)%float then (0, 0, 0, 0)
  else
    let sx := int_of_float xin in
    let sy := int_of_float yin in
    if in_image src sx sy then pixel_at src sx sy else (0, 0, 0, 0).

Definition raster : rasterizer :=
  Rasterizer rounded_rectangle_cover ellipse_cover arc_cover rotate_sample.

(** A checkout of the project with its asset catalog in place. *)
Definition checkout : world :=
  World [ "work"; "cardpro"; "scripts"; "generate_icon.py" ]%string
        {[ [ "work"; "cardpro"; "CardPro"; "Resources"; "Assets.xcassets";
             "AppIcon.appiconset" ]%string ]}
        ∅ ∅ [].

Definition catalog : path :=
  [ "work"; "cardpro"; "CardPro"; "Resources"; "Assets.xcassets";
    "AppIcon.appiconset" ]%string.

(** The same checkout after an earlier run, its descriptor now read-only. *)
Definition stale_checkout : world :=
  World [ "work"; "cardpro"; "scripts"; "generate_icon.py" ]%string
        {[ catalog ]}
        {[ (catalog ++ ["Contents.json"%string])%list ]}
        (<[ (catalog ++ ["AppIcon.png"%string])%list := TextFile "old icon" ]>
           (<[ (catalog ++ ["Contents.json"%string])%list := TextFile "old descriptor" ]> ∅))
        [].

End Reference.

(** * Closed forms and predicates *)

Definition gradient_color (size y : Z) : rgba :=
  let ratio := (float_of_int y / float_of_int size)%float in
  (int_of_float (20 + float_of_int (40 - 20) * ratio),
   int_of_float (60 + float_of_int (140 - 60) * ratio),
   int_of_float (120 + float_of_int (160 - 120) * ratio),
   255).

Definition overlay_color (size x y : Z) (p : rgba) : rgba :=
  let d := dist size x y in
  let md := max_dist size in
  if (d <? md)%float then
    let q := (d / md)%float in
    let factor := (1 - q * 0.3)%float in
    let band c := Z.min 255 (int_of_float (float_of_int c * factor + 30 * (1 - q))) in
    (band (red p), band (green p), band (blue p), 255)
  else p.

(** The colour of a background pixel, in closed form. *)
Definition background_color (size x y : Z) : rgba :=
  overlay_color size x y (gradient_color size y).

Definition sized (size : Z) (img : image) : Prop :=
  width img = size /\ height img = size.

Definition blank (size : Z) : image := Image size size (fun _ _ => (0, 0, 0, 0)).

Definition back_layer (R : rasterizer) (size : Z) : image :=
  Image_rotate R (draw_back_card R size (blank size)) (-8) (size / 2, size / 2).

Definition front_layer (R : rasterizer) (size : Z) : image :=
  Image_rotate R (draw_front_card R size (blank size)) 5 (size / 2, size / 2).

(** The pixels the indicator glyph (three arcs and the dot) paints. *)
Definition glyph_cover (R : rasterizer) (size x y : Z) : bool :=
  ellipse_cover R (dot_box size) x y
  || existsb (fun radius => arc_cover R (wave_box size radius) 300 60 (arc_width size) x y)
       (wave_radii size).

(** The colour of a pixel of the finished icon. *)
Definition icon_color (R : rasterizer) (size x y : Z) : rgba :=
  if glyph_cover R size x y then wave_color
  else composite_pixel
         (composite_pixel (background_color size x y) (pixel_at (back_layer R size) x y))
         (pixel_at (front_layer R size) x y).

Definition answer {A : Type} (o : outcome A) : A + exn :=
  match o with
  | Returned a _ => inl a
  | Raised e _ => inr e
  end.

(** A computation that neither reads nor changes the environment: its
    answer is fixed and the world comes back as it went in. *)
Definition pure_comp {A : Type} (c : M A) : Prop :=
  exists r : A + exn,
    forall w, c w = match r with inl a => Returned a w | inr e => Raised e w end.

Definition fully_opaque (img : image) : Prop :=
  forall x y, 0 <= x < width img -> 0 <= y < height img -> alpha (pixel_at img x y) = 255.

Definition rows (size : Z) : list Z := map Z.of_nat (seq 0 (Z.to_nat size)).

(** Neither card layer nor the glyph reaches the pixel. *)
Definition clear_at (R : rasterizer) (size x y : Z) : bool :=
  negb (glyph_cover R size x y)
  && (alpha (pixel_at (back_layer R size) x y) =? 0)
  && (alpha (pixel_at (front_layer R size) x y) =? 0).





(** Following the specification's words: every pixel within [0.6 * size]
    of the centre is lightened, the strength falling off linearly to that
    radius. *)
Definition stated_max_dist (size : Z) : float := (0.6 * float_of_int size)%float.

Definition stated_overlay_color (size x y : Z) (p : rgba) : rgba :=
  let d := dist size x y in
  let md := stated_max_dist size in
  if (d <? md)%float then
    let q := (d / md)%float in
    let factor := (1 - q * 0.3)%float in
    let band c := Z.min 255 (int_of_float (float_of_int c * factor + 30 * (1 - q))) in
    (band (red p), band (green p), band (blue p), 255)
  else p.

(** The weight of the lightening term at a pixel: one at the centre, falling
    linearly with the distance. *)
Definition blend_strength (size x y : Z) : float :=
  (1 - dist size x y / max_dist size)%float.



Definition sizes_up_to (n : Z) : list Z :=
  map (fun k => Z.of_nat k + 1) (seq 0 (Z.to_nat n)).







(** [n] is less than one away from the value of [v]. *)
Definition within_one (n : Z) (v : float) : Prop :=
  forall q, float_value v = Some q -> (Qabs (inject_Z n - q) < 1)%Q.

Definition say (s : string) (w : world) : world :=
  World (script_file w) (dirs w) (locked w) (files w) (stdout w ++ [s])%list.

(** ** The shapes handed to the drawing calls *)

Record shape : Type := Shape {
  shape_box : box;
  shape_radius : Z;
  shape_fill : rgba
}.

(** A run of [rounded_rectangle] calls on one image. *)
Definition draw_shapes (R : rasterizer) (shapes : list shape) (img : image) : image :=
  fold_left (fun im s => draw_rounded_rectangle R im (shape_box s) (shape_radius s)
                           (shape_fill s))
            shapes img.

(** Back card: shadow, body, accent line. *)
Definition back_card_shapes (size : Z) : list shape :=
  let cw := card_width size in
  let ch := int_of_float (float_of_int cw * 0.6) in
  let cr := corner_radius size in
  let bx := back_x size in
  let by_ := back_y size in
  let so := shadow_offset size in
  let ah := int_of_float (float_of_int ch * 0.15) in
  [ Shape (int_box (bx + so) (by_ + so) (bx + cw + so) (by_ + ch + so)) cr (0, 0, 0, 60);
    Shape (int_box bx by_ (bx + cw) (by_ + ch)) cr (240, 240, 245, 255);
    Shape (int_box bx by_ (bx + cw) (by_ + ah)) cr (100, 160, 200, 255) ].

(** Back card: the rectangle squaring the bottom of the accent. *)
Definition back_accent_rect (size : Z) : Z * Z * Z * Z :=
  let cw := card_width size in
  let ch := int_of_float (float_of_int cw * 0.6) in
  let ah := int_of_float (float_of_int ch * 0.15) in
  let bx := back_x size in
  let by_ := back_y size in
  (bx, by_ + ah - corner_radius size, bx + cw, by_ + ah).

(** Front card: shadow, body, left bar. *)
Definition front_card_shapes (size : Z) : list shape :=
  let cw := card_width size in
  let ch := int_of_float (float_of_int cw * 0.6) in
  let cr := corner_radius size in
  let fx := front_x size in
  let fy := front_y size in
  let so := shadow_offset size in
  let bw := int_of_float (float_of_int cw * 0.04) in
  [ Shape (int_box (fx + so * 2) (fy + so * 2) (fx + cw + so * 2) (fy + ch + so * 2))
          cr (0, 0, 0, 80);
    Shape (int_box fx fy (fx + cw) (fy + ch)) cr (255, 255, 255, 255);
    Shape (int_box fx fy (fx + bw + cr) (fy + ch)) cr (30, 100, 160, 255) ].

(** Front card: the rectangle squaring the right side of the bar. *)
Definition front_bar_rect (size : Z) : Z * Z * Z * Z :=
  let cw := card_width size in
  let ch := int_of_float (float_of_int cw * 0.6) in
  let bw := int_of_float (float_of_int cw * 0.04) in
  let fx := front_x size in
  let fy := front_y size in
  (fx + bw, fy, fx + bw + corner_radius size, fy + ch).

(** Front card: the name, title and two contact lines. *)
Definition front_line_shapes (size : Z) : list shape :=
  let cw := card_width size in
  let ch := int_of_float (float_of_int cw * 0.6) in
  let line_x := front_x size + int_of_float (float_of_int cw * 0.15) in
  let y1 := front_y size + int_of_float (float_of_int ch * 0.25) in
  let line_width := int_of_float (float_of_int cw * 0.5) in
  let line_height := int_of_float (float_of_int ch * 0.08) in
  let y2 := y1 + int_of_float (float_of_int ch * 0.18) in
  let y3 := y2 + int_of_float (float_of_int ch * 0.22) in
  let y4 := y3 + int_of_float (float_of_int ch * 0.12) in
  [ Shape (int_box line_x y1 (line_x + line_width) (y1 + line_height))
          (line_height / 2) (60, 60, 70, 255);
    Shape (Int line_x, Int y2,
           Float (float_of_int line_x + float_of_int line_width * 0.7),
           Float (float_of_int y2 + float_of_int line_height * 0.6))
          (line_height / 3) (180, 180, 190, 255);
    Shape (Int line_x, Int y3,
           Float (float_of_int line_x + float_of_int line_width * 0.6),
           Float (float_of_int y3 + float_of_int line_height * 0.5))
          (line_height / 4) (180, 180, 190, 255);
    Shape (Int line_x, Int y4,
           Float (float_of_int line_x + float_of_int line_width * 0.75),
           Float (float_of_int y4 + float_of_int line_height * 0.5))
          (line_height / 4) (180, 180, 190, 255) ].

Definition rect_box (r : Z * Z * Z * Z) : box :=
  let '(x0, y0, x1, y1) := r in int_box x0 y0 x1 y1.

(** Every box of the pipeline, in the order the calls are made. *)
Definition drawn_boxes (size : Z) : list box :=
  (map shape_box (back_card_shapes size) ++ [rect_box (back_accent_rect size)]
   ++ map shape_box (front_card_shapes size) ++ [rect_box (front_bar_rect size)]
   ++ map shape_box (front_line_shapes size)
   ++ map (wave_box size) (wave_radii size) ++ [dot_box size])%list.

(** Comparison of two coordinates, as the interpreter compares an integer
    with a float. *)
Definition num_leb (a b : num) : bool :=
  match a, b with
  | Int x, Int y => x <=? y
  | Int x, Float g => (float_of_int x <=? g)%float
  | Float f, Int y => (f <=? float_of_int y)%float
  | Float f, Float g => (f <=? g)%float
  end.

(** The second corner is not before the first. *)
Definition box_ordered (b : box) : bool :=
  let '(x0, y0, x1, y1) := b in num_leb x0 x1 && num_leb y0 y1.

(** Both corners lie between [0] and [size]. *)
Definition box_in_canvas (size : Z) (b : box) : bool :=
  let '(x0, y0, x1, y1) := b in
  num_leb (Int 0) x0 && num_leb (Int 0) y0 && num_leb x1 (Int size) && num_leb y1 (Int size).

(** ** Further predicates *)

Definition world_of {A : Type} (o : outcome A) : world :=
  match o with
  | Returned _ w => w
  | Raised _ w => w
  end.

Definition rgba_eqb (p q : rgba) : bool :=
  (red p =? red q) && (green p =? green q) && (blue p =? blue q) && (alpha p =? alpha q).

(** A colour whose four bands are bytes. *)
Definition byte_bands (p : rgba) : Prop :=
  0 <= red p <= 255 /\ 0 <= green p <= 255 /\ 0 <= blue p <= 255 /\ 0 <= alpha p <= 255.

(** The corner (0, 0) of the background shows the first colour of the
    gradient. *)
Definition corner_kept (size : Z) : bool :=
  rgba_eqb (background_color size 0 0) (20, 60, 120, 255).

(** The centre pixel of the background is the gradient's, 30 higher in each
    colour band (255 at most). *)
Definition centre_lightened (size : Z) : bool :=
  let c := size / 2 in
  let g := gradient_color size c in
  rgba_eqb (background_color size c c)
           (Z.min 255 (red g + 30), Z.min 255 (green g + 30), Z.min 255 (blue g + 30), 255).

(** The radius against [0.6 * size]: equal on an even size, below it on an
    odd one. *)
Definition radius_by_parity (size : Z) : bool :=
  if Z.even size then (max_dist size =? stated_max_dist size)%float
  else (max_dist size <? stated_max_dist size)%float.

(** The process can create or replace [p]: its directory exists, [p] is
    not itself a directory, and writing it is permitted. *)
Definition writable (p : path) (w : world) : Prop :=
  (p ∉ dirs w) /\ (dirname p ∈ dirs w) /\ (p ∉ locked w).

(** The four lines of a completed run. *)
Definition run_log (w : world) : list string :=
  [ "Generating CardPro App Icon...";
    String.append "Saved: " (path_string (output_path w));
    String.append "Updated: " (path_string (contents_path w));
    "Done! App icon generated successfully." ]%string.

(** A checkout in which the asset catalog has not been created. *)
Definition bare_checkout : world :=
  World (script_file Reference.checkout) ∅ ∅ ∅ [].

(** * Properties *)

(** ** Loops *)

Lemma for_loop_inv {S : Type} (P : Z -> S -> Prop) (body : Z -> S -> M S) (w : world) :
  forall (n : nat) (i : Z) (s : S),
    P i s ->
    (forall j s0, i <= j < i + Z.of_nat n -> P j s0 ->
       exists s1, body j s0 w = Returned s1 w /\ P (j + 1) s1) ->
    exists s', for_loop n i body s w = Returned s' w /\ P (i + Z.of_nat n) s'.
Proof.
  induction n as [|n IH]; intros i s Hi Hbody.
  - exists s. split; [reflexivity|]. now replace (i + Z.of_nat 0) with i by lia.
  - destruct (Hbody i s ltac:(lia) Hi) as (s1 & Hrun & Hs1).
    destruct (IH (i + 1) s1 Hs1) as (s' & Hrest & Hs').
    { intros j s0 Hj. apply Hbody. lia. }
    exists s'. split.
    + cbn [for_loop]. unfold bind. rewrite Hrun. exact Hrest.
    + now replace (i + Z.of_nat (Datatypes.S n)) with (i + 1 + Z.of_nat n) by lia.
Qed.

Lemma for_range_inv {S : Type} (P : Z -> S -> Prop) (body : Z -> S -> M S) (w : world)
    (stop : Z) (s : S) :
  0 <= stop ->
  P 0 s ->
  (forall j s0, 0 <= j < stop -> P j s0 ->
     exists s1, body j s0 w = Returned s1 w /\ P (j + 1) s1) ->
  exists s', for_range stop body s w = Returned s' w /\ P stop s'.
Proof.
  intros Hstop H0 Hbody. unfold for_range.
  destruct (for_loop_inv P body w (Z.to_nat stop) 0 s H0) as (s' & Hrun & Hs').
  - intros j s0 Hj. apply Hbody. lia.
  - exists s'. split; [exact Hrun|]. now replace stop with (0 + Z.of_nat (Z.to_nat stop)) by lia.
Qed.

(** ** Floating point: the one fact the overlay needs *)

(** A square root is never below zero, so a bound it is strictly below is
    not zero: the division guarded by [dist < max_dist] cannot fail. *)
Lemma sqrt_below_nonzero (a m : float) :
  (PrimFloat.sqrt a <? m)%float = true -> (m =? 0)%float = false.
Proof.
  rewrite FloatAxioms.ltb_spec, FloatAxioms.eqb_spec, FloatAxioms.sqrt_spec.
  change (Prim2SF 0) with (S754_zero false).
  generalize (Prim2SF a) (Prim2SF m). intros x y Hlt.
  destruct y as [sy | [|] | | [|] my ey]; try reflexivity.
  exfalso. revert Hlt. unfold SF64sqrt, SFsqrt.
  destruct x as [sx | [|] | | [|] mx ex]; try discriminate.
  destruct (SFsqrt_core_binary prec emax (Z.pos mx) ex) as [[mz ez] lz].
  unfold binary_round_aux.
  destruct (shr_fexp prec emax mz ez lz) as [mrs e1].
  destruct (shr_fexp prec emax _ e1 loc_Exact) as [mrs2 e2].
  destruct (shr_m mrs2); try discriminate.
  destruct (e2 <=? emax - prec); discriminate.
Qed.

(** ** The background *)

Lemma gradient_row_spec (size y : Z) (img : image) (w : world) :
  size <> 0 ->
  gradient_row size y img w
  = Returned (draw_line img 0 size y (gradient_color size y)) w.
Proof.
  intros Hs. unfold gradient_row, true_div, bind.
  destruct (size =? 0) eqn:E; [lia|]. reflexivity.
Qed.

Lemma gradient_background_spec (size : Z) (img : image) (w : world) :
  0 < size -> sized size img ->
  exists img', gradient_background size img w = Returned img' w /\ sized size img' /\
    forall x y, 0 <= x < size -> 0 <= y < size ->
      pixel_at img' x y = gradient_color size y.
Proof.
  intros Hs Himg. unfold gradient_background.
  destruct (for_range_inv
    (fun y im => sized size im /\
       forall x y', 0 <= x < size -> 0 <= y' < y ->
         pixel_at im x y' = gradient_color size y')
    (gradient_row size) w size img) as (img' & Hrun & Hsz & Hpx).
  - lia.
  - split; [exact Himg|]. intros; lia.
  - intros j im Hj [Hsz Hpx]. eexists. split.
    + apply gradient_row_spec. lia.
    + split; [exact Hsz|]. intros x y' Hx Hy'. cbn.
      destruct (Z.eq_dec y' j) as [->|Hne].
      * rewrite Z.eqb_refl. cbn.
        replace (Z.min 0 size <=? x) with true by lia.
        replace (x <=? Z.max 0 size) with true by lia. reflexivity.
      * replace (y' =? j) with false by lia. cbn. apply Hpx; lia.
  - exists img'. split; [exact Hrun|]. split; [exact Hsz|].
    intros x y Hx Hy. apply Hpx; lia.
Qed.

Lemma float_div_guarded (size x y : Z) (w : world) :
  (dist size x y <? max_dist size)%float = true ->
  float_div (dist size x y) (max_dist size) w
  = Returned (dist size x y / max_dist size)%float w.
Proof.
  intros Hlt. unfold float_div.
  unfold dist, pow_half in Hlt |- *.
  now rewrite (sqrt_below_nonzero _ _ Hlt).
Qed.

Lemma in_image_sized (size : Z) (img : image) (x y : Z) :
  sized size img -> 0 <= x < size -> 0 <= y < size -> in_image img x y = true.
Proof.
  intros [Hw Hh] Hx Hy. unfold in_image. rewrite Hw, Hh.
  repeat (apply andb_true_intro; split); lia.
Qed.

(** One step of the inner loop: the pixel is read, lightened and stored
    back, or left alone; no other pixel changes. *)
Lemma overlay_pixel_spec (size y x : Z) (img : image) (w : world) :
  sized size img -> 0 <= x < size -> 0 <= y < size ->
  exists img', overlay_pixel size y x img w = Returned img' w /\ sized size img' /\
    forall x' y',
      pixel_at img' x' y'
      = if (x' =? x) && (y' =? y) then overlay_color size x y (pixel_at img x y)
        else pixel_at img x' y'.
Proof.
  intros Hsz Hx Hy. unfold overlay_pixel, overlay_color.
  destruct (dist size x y <? max_dist size)%float eqn:Hlt.
  - unfold bind, lighten, bind, ret.
    unfold getpixel, putpixel, wrap_index, ret. cbn [fst snd].
    replace (x <? 0) with false by lia. replace (y <? 0) with false by lia.
    rewrite (in_image_sized size img x y Hsz Hx Hy).
    repeat (rewrite (float_div_guarded _ _ _ _ Hlt); cbv beta iota).
    eexists. split; [reflexivity|]. split; [exact Hsz|].
    intros x' y'. reflexivity.
  - exists img. split; [reflexivity|]. split; [exact Hsz|].
    intros x' y'. destruct ((x' =? x) && (y' =? y)) eqn:E; [|reflexivity].
    apply andb_prop in E as [E1 E2].
    apply Z.eqb_eq in E1, E2. now subst.
Qed.

Lemma overlay_row_spec (size y : Z) (img : image) (w : world) :
  sized size img -> 0 < size -> 0 <= y < size ->
  exists img', for_range size (overlay_pixel size y) img w = Returned img' w /\
    sized size img' /\
    forall x' y', 0 <= x' < size ->
      pixel_at img' x' y'
      = if y' =? y then overlay_color size x' y (pixel_at img x' y)
        else pixel_at img x' y'.
Proof.
  intros Hsz Hs Hy.
  destruct (for_range_inv
    (fun x im => sized size im /\
       forall x' y',
         pixel_at im x' y'
         = if (y' =? y) && (0 <=? x') && (x' <? x)
           then overlay_color size x' y (pixel_at img x' y)
           else pixel_at img x' y')
    (overlay_pixel size y) w size img) as (img' & Hrun & Hsz' & Hpx).
  - lia.
  - split; [exact Hsz|]. intros x' y'.
    replace ((y' =? y) && (0 <=? x') && (x' <? 0)) with false; [reflexivity|].
    destruct (y' =? y), (0 <=? x') eqn:E; cbn; try reflexivity. lia.
  - intros j im Hj [Hszj Hpxj].
    destruct (overlay_pixel_spec size y j im w Hszj Hj Hy) as (im' & Hrun & Hsz1 & Hpx1).
    exists im'. split; [exact Hrun|]. split; [exact Hsz1|].
    intros x' y'. rewrite Hpx1.
    destruct (Z.eq_dec x' j) as [->|Hx'], (Z.eq_dec y' y) as [->|Hy'].
    + rewrite !Z.eqb_refl. cbn [andb].
      replace (0 <=? j) with true by lia. replace (j <? j + 1) with true by lia.
      cbn [andb]. rewrite Hpxj. rewrite Z.eqb_refl.
      replace (j <? j) with false by lia. rewrite andb_false_r. reflexivity.
    + replace (y' =? y) with false by lia. rewrite andb_false_r. cbn [andb].
      rewrite Hpxj. replace (y' =? y) with false by lia. reflexivity.
    + replace (x' =? j) with false by lia. cbn [andb]. rewrite Hpxj.
      rewrite Z.eqb_refl.
      replace (x' <? j + 1) with (x' <? j) by lia. reflexivity.
    + replace (x' =? j) with false by lia. cbn [andb]. rewrite Hpxj.
      replace (y' =? y) with false by lia. reflexivity.
  - exists img'. split; [exact Hrun|]. split; [exact Hsz'|].
    intros x' y' Hx'. rewrite Hpx.
    replace (0 <=? x') with true by lia. replace (x' <? size) with true by lia.
    now rewrite !andb_true_r.
Qed.

(** The whole pass: every pixel is the lightening of what the gradient put
    there, each from its own original value. *)
Lemma radial_overlay_spec (size : Z) (img : image) (w : world) :
  sized size img -> 0 < size ->
  exists img', radial_overlay size img w = Returned img' w /\ sized size img' /\
    forall x y, 0 <= x < size -> 0 <= y < size ->
      pixel_at img' x y = overlay_color size x y (pixel_at img x y).
Proof.
  intros Hsz Hs. unfold radial_overlay.
  destruct (for_range_inv
    (fun y im => sized size im /\
       forall x' y', 0 <= x' < size ->
         pixel_at im x' y'
         = if (0 <=? y') && (y' <? y)
           then overlay_color size x' y' (pixel_at img x' y')
           else pixel_at img x' y')
    (fun y => for_range size (overlay_pixel size y)) w size img)
    as (img' & Hrun & Hsz' & Hpx).
  - lia.
  - split; [exact Hsz|]. intros x' y' _.
    replace ((0 <=? y') && (y' <? 0)) with false; [reflexivity|].
    destruct (0 <=? y') eqn:E; cbn; [lia|reflexivity].
  - intros j im Hj [Hszj Hpxj].
    destruct (overlay_row_spec size j im w Hszj Hs Hj) as (im' & Hrun & Hsz1 & Hpx1).
    exists im'. split; [exact Hrun|]. split; [exact Hsz1|].
    intros x' y' Hx'. rewrite (Hpx1 x' y' Hx').
    destruct (Z.eq_dec y' j) as [->|Hy'].
    + rewrite Z.eqb_refl. rewrite (Hpxj x' j Hx').
      replace (j <? j) with false by lia. rewrite andb_false_r.
      replace (0 <=? j) with true by lia. replace (j <? j + 1) with true by lia.
      reflexivity.
    + replace (y' =? j) with false by lia. rewrite (Hpxj x' y' Hx').
      replace (y' <? j + 1) with (y' <? j) by lia. reflexivity.
  - exists img'. split; [exact Hrun|]. split; [exact Hsz'|].
    intros x y Hx Hy. rewrite (Hpx x y Hx).
    replace (0 <=? y) with true by lia. replace (y <? size) with true by lia.
    reflexivity.
Qed.

Lemma Image_new_spec (size : Z) (color : rgba) (w : world) :
  0 <= size ->
  Image_new size size color w = Returned (Image size size (fun _ _ => color)) w.
Proof.
  intros Hs. unfold Image_new. replace (size <? 0) with false by lia. reflexivity.
Qed.

Lemma background_spec (size : Z) (w : world) :
  0 < size ->
  exists img, background size w = Returned img w /\ sized size img /\
    forall x y, 0 <= x < size -> 0 <= y < size ->
      pixel_at img x y = background_color size x y.
Proof.
  intros Hs. unfold background, bind.
  rewrite Image_new_spec by lia.
  destruct (gradient_background_spec size (Image size size (fun _ _ => (0, 0, 0, 0))) w Hs)
    as (g & Hg & Hgs & Hgp); [split; reflexivity|].
  rewrite Hg.
  destruct (radial_overlay_spec size g w Hgs Hs) as (o & Ho & Hos & Hop).
  exists o. split; [exact Ho|]. split; [exact Hos|].
  intros x y Hx Hy. rewrite (Hop x y Hx Hy), (Hgp x y Hx Hy). reflexivity.
Qed.

(** ** The card layers and the assembled icon, in closed form *)

Lemma sized_draw_indicator (R : rasterizer) (size : Z) (img : image) :
  sized size img -> sized size (draw_indicator R size img).
Proof. intros H. exact H. Qed.

Lemma sized_back_layer (R : rasterizer) (size : Z) : sized size (back_layer R size).
Proof. split; reflexivity. Qed.

Lemma sized_front_layer (R : rasterizer) (size : Z) : sized size (front_layer R size).
Proof. split; reflexivity. Qed.

Lemma back_card_spec (R : rasterizer) (size : Z) (w : world) :
  0 <= size -> back_card R size w = Returned (back_layer R size) w.
Proof. intros Hs. unfold back_card, bind. now rewrite Image_new_spec. Qed.

Lemma front_card_spec (R : rasterizer) (size : Z) (w : world) :
  0 <= size -> front_card R size w = Returned (front_layer R size) w.
Proof. intros Hs. unfold front_card, bind. now rewrite Image_new_spec. Qed.

Lemma alpha_composite_spec (size : Z) (dst src : image) (w : world) :
  sized size dst -> sized size src ->
  alpha_composite dst src w = Returned (composite dst src) w /\
  sized size (composite dst src).
Proof.
  intros [Hdw Hdh] [Hsw Hsh]. unfold alpha_composite.
  rewrite Hdw, Hdh, Hsw, Hsh, !Z.eqb_refl. split; [reflexivity|].
  split; assumption.
Qed.

Lemma draw_indicator_pixel (R : rasterizer) (size : Z) (img : image) (x y : Z) :
  pixel_at (draw_indicator R size img) x y
  = if glyph_cover R size x y then wave_color else pixel_at img x y.
Proof.
  unfold draw_indicator, glyph_cover, wave_radii, draw_ellipse, draw_arc, paint.
  cbn [fold_left existsb pixel_at].
  destruct (ellipse_cover R (dot_box size) x y); [reflexivity|].
  cbn [orb].
  repeat match goal with
         | |- context [arc_cover ?r ?b ?s ?e ?k x y] =>
             destruct (arc_cover r b s e k x y); cbn [orb]
         end; reflexivity.
Qed.

(** The compositor returns, leaves the environment as it found it, and
    the image it returns is the closed form above, pixel by pixel. *)
Lemma create_app_icon_pixels (R : rasterizer) (size : Z) (w : world) :
  0 < size ->
  exists img, create_app_icon R size w = Returned img w /\ sized size img /\
    forall x y, 0 <= x < size -> 0 <= y < size ->
      pixel_at img x y = icon_color R size x y.
Proof.
  intros Hs. unfold create_app_icon, bind.
  destruct (background_spec size w Hs) as (bg & Hbg & Hbgs & Hbgp).
  rewrite Hbg, back_card_spec, front_card_spec by lia.
  destruct (alpha_composite_spec size bg (back_layer R size) w Hbgs (sized_back_layer R size))
    as [Hc1 Hc1s].
  rewrite Hc1.
  destruct (alpha_composite_spec size _ (front_layer R size) w Hc1s (sized_front_layer R size))
    as [Hc2 Hc2s].
  rewrite Hc2.
  eexists. split; [reflexivity|]. split.
  - apply sized_draw_indicator. exact Hc2s.
  - intros x y Hx Hy. rewrite draw_indicator_pixel. unfold icon_color.
    destruct (glyph_cover R size x y); [reflexivity|].
    cbn [composite pixel_at]. now rewrite (Hbgp x y Hx Hy).
Qed.

(** ** Independence from the environment *)

Lemma pure_ret {A : Type} (a : A) : pure_comp (ret a).
Proof. exists (inl a). reflexivity. Qed.

Lemma pure_raise {A : Type} (e : exn) : pure_comp (@raise A e).
Proof. exists (inr e). reflexivity. Qed.

Lemma pure_bind {A B : Type} (c : M A) (k : A -> M B) :
  pure_comp c -> (forall a, pure_comp (k a)) -> pure_comp (bind c k).
Proof.
  intros [[a|e] Hc] Hk.
  - destruct (Hk a) as [r Hr]. exists r. intros w. unfold bind. now rewrite Hc, Hr.
  - exists (inr e). intros w. unfold bind. now rewrite Hc.
Qed.

Lemma pure_if {A : Type} (b : bool) (c1 c2 : M A) :
  pure_comp c1 -> pure_comp c2 -> pure_comp (if b then c1 else c2).
Proof. now destruct b. Qed.

Lemma pure_for_loop {S : Type} (body : Z -> S -> M S) :
  (forall i s, pure_comp (body i s)) ->
  forall n i s, pure_comp (for_loop n i body s).
Proof.
  intros Hbody. induction n as [|n IH]; intros i s; cbn [for_loop].
  - apply pure_ret.
  - apply pure_bind; [apply Hbody|]. intros s'. apply IH.
Qed.

Lemma pure_for_range {S : Type} (stop : Z) (body : Z -> S -> M S) (s : S) :
  (forall i s0, pure_comp (body i s0)) -> pure_comp (for_range stop body s).
Proof. intros H. apply pure_for_loop, H. Qed.

Ltac purity :=
  repeat first
    [ apply pure_ret | apply pure_raise
    | apply pure_bind; [|intros ?]
    | apply pure_if
    | apply pure_for_range; intros ? ? ].

Lemma pure_background (size : Z) : pure_comp (background size).
Proof.
  unfold background, Image_new, gradient_background, radial_overlay,
    gradient_row, true_div, overlay_pixel, lighten, float_div, getpixel, putpixel.
  purity.
Qed.

Lemma pure_create_app_icon (R : rasterizer) (size : Z) :
  pure_comp (create_app_icon R size).
Proof.
  unfold create_app_icon. apply pure_bind; [apply pure_background|]. intros bg.
  unfold back_card, front_card, Image_new, alpha_composite. purity.
Qed.

(** The icon of a given size, as one image that every run returns. *)
Lemma create_app_icon_total (R : rasterizer) (size : Z) :
  0 < size ->
  exists img, sized size img /\
    (forall x y, 0 <= x < size -> 0 <= y < size ->
       pixel_at img x y = icon_color R size x y) /\
    forall w, create_app_icon R size w = Returned img w.
Proof.
  intros Hs. destruct (pure_create_app_icon R size) as [r Hr].
  destruct (create_app_icon_pixels R size (World [] ∅ ∅ ∅ []) Hs) as (img & Hrun & Hsz & Hpx).
  rewrite Hr in Hrun. destruct r as [a|e]; [|discriminate].
  injection Hrun as ->. exists img. auto.
Qed.

(** ** Opacity *)

Lemma alpha_gradient_color (size y : Z) : alpha (gradient_color size y) = 255.
Proof. reflexivity. Qed.

Lemma alpha_overlay_color (size x y : Z) (p : rgba) :
  alpha p = 255 -> alpha (overlay_color size x y p) = 255.
Proof.
  intros Hp. unfold overlay_color.
  destruct (dist size x y <? max_dist size)%float; [reflexivity|exact Hp].
Qed.

Lemma alpha_background_color (size x y : Z) : alpha (background_color size x y) = 255.
Proof. apply alpha_overlay_color, alpha_gradient_color. Qed.

(** Compositing anything over an opaque pixel leaves it opaque. *)
Lemma alpha_composite_pixel (dst src : rgba) :
  alpha dst = 255 -> alpha (composite_pixel dst src) = 255.
Proof.
  destruct dst as [[[dr dg] db] da], src as [[[sr sg] sb] sa]. cbn [alpha].
  intros ->. unfold composite_pixel.
  destruct (sa =? 0); [reflexivity|]. cbn [alpha].
  assert (H : u32 (sa * 255 + u32 (255 * (255 - sa))) = 65025).
  { unfold u32. rewrite Zplus_mod_idemp_r.
    replace (sa * 255 + 255 * (255 - sa)) with 65025 by ring. reflexivity. }
  rewrite H. reflexivity.
Qed.

(** A pixel of the final image is a source pixel standing unchanged when
    the layers above it are transparent there. *)
Lemma composite_pixel_transparent (dst src : rgba) :
  alpha src = 0 -> composite_pixel dst src = dst.
Proof.
  destruct dst as [[[dr dg] db] da], src as [[[sr sg] sb] sa]. cbn [alpha].
  intros ->. reflexivity.
Qed.

(** * The claims *)

(** C1. For every positive [size], [create_app_icon size] returns a square
    image of exactly [size] by [size] pixels, and the environment (files,
    directories, standard output) is after the call what it was before. *)
Theorem create_app_icon_square (R : rasterizer) (size : Z) (w : world) :
  0 < size ->
  exists img,
    create_app_icon R size w = Returned img w /\ width img = size /\ height img = size.
Proof.
  intros Hs. destruct (create_app_icon_pixels R size w Hs) as (img & Hrun & [Hw Hh] & _).
  exists img. auto.
Qed.

Lemma create_app_icon_square_witness :
  0 < 4 /\
  exists img,
    create_app_icon Reference.raster 4 Reference.checkout = Returned img Reference.checkout /\
    width img = 4 /\ height img = 4.
Proof. split; [lia | apply (create_app_icon_square Reference.raster 4); lia]. Defined.

(** Whatever the scan conversion, a pixel the dot covers ends with the
    alpha of the stroke colour. *)
Lemma dot_pixel_alpha (R : rasterizer) (size x y : Z) (w : world) :
  0 < size -> 0 <= x < size -> 0 <= y < size ->
  ellipse_cover R (dot_box size) x y = true ->
  exists img, create_app_icon R size w = Returned img w /\ alpha (pixel_at img x y) = 180.
Proof.
  intros Hs Hx Hy Hdot.
  destruct (create_app_icon_pixels R size w Hs) as (img & Hrun & _ & Hpx).
  exists img. split; [exact Hrun|]. rewrite (Hpx x y Hx Hy).
  unfold icon_color, glyph_cover. now rewrite Hdot.
Qed.

(** C2, as stated, fails: in the 1024-pixel icon the pixel at the centre of
    the indicator dot, (798, 183), is stored with alpha 180. *)
Lemma icon_1024_not_fully_opaque :
  exists img,
    create_app_icon Reference.raster 1024 Reference.checkout
    = Returned img Reference.checkout /\
    pixel_at img 798 183 = (255, 255, 255, 180) /\
    ~ fully_opaque img.
Proof.
  destruct (create_app_icon_pixels Reference.raster 1024 Reference.checkout ltac:(lia))
    as (img & Hrun & [Hw Hh] & Hpx).
  assert (Hdot : pixel_at img 798 183 = (255, 255, 255, 180)).
  { rewrite Hpx by lia. vm_compute. reflexivity. }
  exists img. split; [exact Hrun|]. split; [exact Hdot|].
  intros Hop. specialize (Hop 798 183). rewrite Hw, Hh, Hdot in Hop.
  cbn [alpha] in Hop. specialize (Hop ltac:(lia) ltac:(lia)). discriminate.
Qed.

(** C2, amended.  For every positive [size], every pixel the indicator
    glyph does not paint has alpha 255; a pixel the glyph paints holds the
    stroke colour as given, alpha 180 included. *)
Theorem icon_opaque_outside_glyph (R : rasterizer) (size : Z) (w : world) :
  0 < size ->
  exists img,
    create_app_icon R size w = Returned img w /\
    forall x y, 0 <= x < size -> 0 <= y < size ->
      if glyph_cover R size x y
      then pixel_at img x y = (255, 255, 255, 180)
      else alpha (pixel_at img x y) = 255.
Proof.
  intros Hs. destruct (create_app_icon_pixels R size w Hs) as (img & Hrun & _ & Hpx).
  exists img. split; [exact Hrun|]. intros x y Hx Hy.
  rewrite (Hpx x y Hx Hy). unfold icon_color.
  destruct (glyph_cover R size x y); [reflexivity|].
  apply alpha_composite_pixel, alpha_composite_pixel, alpha_background_color.
Qed.

Lemma icon_opaque_outside_glyph_witness :
  0 < 3 /\
  exists img,
    create_app_icon Reference.raster 3 Reference.checkout = Returned img Reference.checkout /\
    forall x y, 0 <= x < 3 -> 0 <= y < 3 ->
      if glyph_cover Reference.raster 3 x y
      then pixel_at img x y = (255, 255, 255, 180)
      else alpha (pixel_at img x y) = 255.
Proof. split; [lia | apply (icon_opaque_outside_glyph Reference.raster 3); lia]. Defined.

(** C5. Two invocations with the same [size], in whatever environments,
    give the same answer: the same image, pixel for pixel (or, for a
    negative size, the same exception). *)
Theorem create_app_icon_deterministic (R : rasterizer) (size : Z) (w1 w2 : world) :
  answer (create_app_icon R size w1) = answer (create_app_icon R size w2).
Proof.
  destruct (pure_create_app_icon R size) as [r Hr].
  rewrite (Hr w1), (Hr w2). now destruct r.
Qed.

(** C7. For every positive [size], [size = 1] included, the compositor
    returns an image: no division by zero, no pixel access out of range,
    no size mismatch between the layers composited. *)
Theorem create_app_icon_returns (R : rasterizer) (size : Z) (w : world) :
  0 < size ->
  exists img, create_app_icon R size w = Returned img w.
Proof.
  intros Hs. destruct (create_app_icon_total R size Hs) as (img & _ & _ & Hrun).
  exists img. apply Hrun.
Qed.

Lemma create_app_icon_returns_witness :
  0 < 1 /\
  exists img, create_app_icon Reference.raster 1 Reference.checkout
              = Returned img Reference.checkout.
Proof. split; [lia | apply (create_app_icon_returns Reference.raster 1); lia]. Defined.

(** C10. Every buffer of the pipeline is [size] by [size]: the base image
    after the gradient and the overlay, each card layer before and after
    its rotation, and both composites; so each [alpha_composite] receives
    two images of equal dimensions and returns. *)
Theorem buffers_square (R : rasterizer) (size : Z) (w : world) :
  0 < size ->
  (forall img angle c,
     width (Image_rotate R img angle c) = width img /\
     height (Image_rotate R img angle c) = height img) /\
  sized size (draw_back_card R size (blank size)) /\
  sized size (draw_front_card R size (blank size)) /\
  exists base back front c1 c2,
    background size w = Returned base w /\ sized size base /\
    back_card R size w = Returned back w /\ sized size back /\
    front_card R size w = Returned front w /\ sized size front /\
    alpha_composite base back w = Returned c1 w /\ sized size c1 /\
    alpha_composite c1 front w = Returned c2 w /\ sized size c2 /\
    create_app_icon R size w = Returned (draw_indicator R size c2) w /\
    sized size (draw_indicator R size c2).
Proof.
  intros Hs. split; [intros; split; reflexivity|].
  split; [split; reflexivity|]. split; [split; reflexivity|].
  destruct (background_spec size w Hs) as (bg & Hbg & Hbgs & _).
  destruct (alpha_composite_spec size bg (back_layer R size) w Hbgs (sized_back_layer R size))
    as [Hc1 Hc1s].
  destruct (alpha_composite_spec size _ (front_layer R size) w Hc1s (sized_front_layer R size))
    as [Hc2 Hc2s].
  exists bg, (back_layer R size), (front_layer R size),
    (composite bg (back_layer R size)),
    (composite (composite bg (back_layer R size)) (front_layer R size)).
  split; [exact Hbg|]. split; [exact Hbgs|].
  split; [apply back_card_spec; lia|]. split; [apply sized_back_layer|].
  split; [apply front_card_spec; lia|]. split; [apply sized_front_layer|].
  split; [exact Hc1|]. split; [exact Hc1s|].
  split; [exact Hc2|]. split; [exact Hc2s|].
  split; [|apply sized_draw_indicator; exact Hc2s].
  unfold create_app_icon, bind.
  rewrite Hbg, back_card_spec, front_card_spec by lia. now rewrite Hc1, Hc2.
Qed.

Lemma buffers_square_witness :
  0 < 2 /\
  exists base back front c1 c2,
    background 2 Reference.checkout = Returned base Reference.checkout /\ sized 2 base /\
    back_card Reference.raster 2 Reference.checkout = Returned back Reference.checkout /\
    sized 2 back /\
    front_card Reference.raster 2 Reference.checkout = Returned front Reference.checkout /\
    sized 2 front /\
    alpha_composite base back Reference.checkout = Returned c1 Reference.checkout /\
    sized 2 c1 /\
    alpha_composite c1 front Reference.checkout = Returned c2 Reference.checkout /\
    sized 2 c2 /\
    create_app_icon Reference.raster 2 Reference.checkout
    = Returned (draw_indicator Reference.raster 2 c2) Reference.checkout /\
    sized 2 (draw_indicator Reference.raster 2 c2).
Proof.
  split; [lia|].
  apply (buffers_square Reference.raster 2 Reference.checkout). lia.
Defined.

(** ** The gradient under the overlay *)

Lemma In_rows (size y : Z) : 0 <= y < size -> In y (rows size).
Proof.
  intros Hy. unfold rows. apply in_map_iff. exists (Z.to_nat y).
  split; [lia|]. apply in_seq. lia.
Qed.





Lemma icon_color_clear (R : rasterizer) (size x y : Z) :
  clear_at R size x y = true -> icon_color R size x y = background_color size x y.
Proof.
  unfold clear_at, icon_color. intros H.
  apply andb_prop in H as [H Hf]. apply andb_prop in H as [Hg Hb].
  apply negb_true_iff in Hg. apply Z.eqb_eq in Hf, Hb. rewrite Hg.
  now rewrite (composite_pixel_transparent _ _ Hb), (composite_pixel_transparent _ _ Hf).
Qed.



(** Whatever the scan conversion, where rows 172 and 173 of column 0 are
    clear of cards and glyph the 1024-pixel icon shows the overlay setting
    in between them. *)
Lemma column_0_rows_172_173 (R : rasterizer) (w : world) :
  clear_at R 1024 0 172 = true -> clear_at R 1024 0 173 = true ->
  exists img, create_app_icon R 1024 w = Returned img w /\
    pixel_at img 0 172 = (23, 73, 126, 255) /\
    pixel_at img 0 173 = (16, 51, 88, 255).
Proof.
  intros H172 H173.
  destruct (create_app_icon_pixels R 1024 w ltac:(lia)) as (img & Hrun & _ & Hpx).
  exists img. split; [exact Hrun|]. split.
  - rewrite Hpx by lia. rewrite (icon_color_clear _ _ _ _ H172). vm_compute. reflexivity.
  - rewrite Hpx by lia. rewrite (icon_color_clear _ _ _ _ H173). vm_compute. reflexivity.
Qed.




(** ** The radius of the overlay *)

(** On an even size the two radii coincide. *)
Lemma max_dist_1024 : max_dist 1024 = stated_max_dist 1024.
Proof. vm_compute. reflexivity. Qed.

(** C6, as stated, fails on an odd size: with [size = 3] the corner (0, 0)
    is within [0.6 * 3] of the centre (1, 1), yet the pass leaves it at the
    gradient's (20, 60, 120), where the stated rule gives (21, 52, 98): the
    script's radius is [(3 // 2) * 1.2 = 1.2]. *)
Lemma overlay_radius_size_3 :
  (dist 3 0 0 <? stated_max_dist 3)%float = true /\
  (dist 3 0 0 <? max_dist 3)%float = false /\
  exists g img,
    gradient_background 3 (blank 3) Reference.checkout = Returned g Reference.checkout /\
    radial_overlay 3 g Reference.checkout = Returned img Reference.checkout /\
    pixel_at g 0 0 = (20, 60, 120, 255) /\
    pixel_at img 0 0 = pixel_at g 0 0 /\
    stated_overlay_color 3 0 0 (pixel_at g 0 0) = (21, 52, 98, 255) /\
    pixel_at img 0 0 <> stated_overlay_color 3 0 0 (pixel_at g 0 0).
Proof.
  split; [vm_compute; reflexivity|]. split; [vm_compute; reflexivity|].
  destruct (gradient_background_spec 3 (blank 3) Reference.checkout ltac:(lia))
    as (g & Hg & Hgs & Hgp); [split; reflexivity|].
  destruct (radial_overlay_spec 3 g Reference.checkout Hgs ltac:(lia)) as (img & Ho & _ & Hop).
  assert (Hg00 : pixel_at g 0 0 = (20, 60, 120, 255)).
  { rewrite Hgp by lia. vm_compute. reflexivity. }
  assert (Hi00 : pixel_at img 0 0 = pixel_at g 0 0).
  { rewrite Hop by lia. rewrite Hg00. vm_compute. reflexivity. }
  exists g, img. split; [exact Hg|]. split; [exact Ho|]. split; [exact Hg00|].
  split; [exact Hi00|]. rewrite Hi00, Hg00.
  split; [vm_compute; reflexivity|]. vm_compute. discriminate.
Qed.

(** C6, amended.  The radius is [(size // 2) * 1.2], which is [0.6 * size]
    on even sizes only.  A pixel whose distance from the centre
    [(size // 2, size // 2)] is not below that radius leaves the pass as it
    entered it; a pixel below it gets, in each colour band [c],
    [min(255, int(c * (1 - 0.3 * t) + 30 * (1 - t)))] with
    [t = dist / max_dist], and alpha 255: the weight [1 - t] of the
    lightening term falls linearly with the distance. *)
Theorem radial_overlay_frame (size : Z) (img : image) (w : world) :
  0 < size -> sized size img ->
  max_dist size = (float_of_int (size / 2) * 1.2)%float /\
  exists img',
    radial_overlay size img w = Returned img' w /\
    forall x y, 0 <= x < size -> 0 <= y < size ->
      ((dist size x y <? max_dist size)%float = false ->
         pixel_at img' x y = pixel_at img x y) /\
      ((dist size x y <? max_dist size)%float = true ->
         let t := (dist size x y / max_dist size)%float in
         let band c :=
           Z.min 255 (int_of_float (float_of_int c * (1 - t * 0.3)
                                    + 30 * blend_strength size x y)) in
         pixel_at img' x y
         = (band (red (pixel_at img x y)), band (green (pixel_at img x y)),
            band (blue (pixel_at img x y)), 255)).
Proof.
  intros Hs Hsz. split; [reflexivity|].
  destruct (radial_overlay_spec size img w Hsz Hs) as (img' & Hrun & _ & Hpx).
  exists img'. split; [exact Hrun|]. intros x y Hx Hy.
  rewrite (Hpx x y Hx Hy). unfold overlay_color, blend_strength.
  split; intros ->; reflexivity.
Qed.

Lemma radial_overlay_frame_witness :
  0 < 3 /\ sized 3 (blank 3) /\
  max_dist 3 = (float_of_int (3 / 2) * 1.2)%float /\
  exists img',
    radial_overlay 3 (blank 3) Reference.checkout = Returned img' Reference.checkout /\
    forall x y, 0 <= x < 3 -> 0 <= y < 3 ->
      ((dist 3 x y <? max_dist 3)%float = false ->
         pixel_at img' x y = pixel_at (blank 3) x y) /\
      ((dist 3 x y <? max_dist 3)%float = true ->
         let t := (dist 3 x y / max_dist 3)%float in
         let band c :=
           Z.min 255 (int_of_float (float_of_int c * (1 - t * 0.3)
                                    + 30 * blend_strength 3 x y)) in
         pixel_at img' x y
         = (band (red (pixel_at (blank 3) x y)), band (green (pixel_at (blank 3) x y)),
            band (blue (pixel_at (blank 3) x y)), 255)).
Proof.
  split; [lia|]. split; [split; reflexivity|].
  apply (radial_overlay_frame 3 (blank 3) Reference.checkout); [lia | split; reflexivity].
Defined.

(** ** Proportional geometry *)

Lemma int_of_float_within_one (v : float) : within_one (int_of_float v) v.
Proof.
  unfold within_one, float_value, int_of_float. intros q.
  destruct (Prim2SF v) as [s | s | | s m e]; try discriminate.
  - intros [= <-]. reflexivity.
  - destruct e as [|p|p]; intros [= <-].
    + unfold Qlt, Qabs, Qminus, Qplus, Qopp, inject_Z. cbn [Qnum Qden].
      destruct s; cbn [cond_Zopp]; lia.
    + unfold Qlt, Qabs, Qminus, Qplus, Qopp, inject_Z. cbn [Qnum Qden].
      destruct s; cbn [cond_Zopp]; lia.
    + unfold Qlt, Qabs, Qminus, Qplus, Qopp, inject_Z. cbn [Qnum Qden].
      rewrite Z.shiftr_div_pow2 by lia.
      rewrite Pos.mul_1_l, Pos2Z.inj_pow.
      set (d := 2 ^ Z.pos p).
      assert (Hd : 0 < d) by (apply Z.pow_pos_nonneg; lia).
      pose proof (Z.div_mod (Z.pos m) d ltac:(lia)) as Hdm.
      pose proof (Z.mod_pos_bound (Z.pos m) d Hd) as Hmod.
      destruct s; cbn [cond_Zopp]; nia.
Qed.

Lemma In_sizes_up_to (n s : Z) : 0 < s <= n -> In s (sizes_up_to n).
Proof.
  intros Hs. unfold sizes_up_to. apply in_map_iff. exists (Z.to_nat (s - 1)).
  split; [lia|]. apply in_seq. lia.
Qed.

(** *** Binary64 rounding, as far as the offsets need it

    [float(size) * constant] is a product of two 53-bit mantissas rounded
    to 53 bits, ties to even.  The lemmas below follow that rounding
    through [SFmul]: the shift that drops the low bits, the round bit and
    the sticky bit, and the carry into a 54th bit. *)





















(** *** The offsets are the floors of the decimal products *)











(** ** The asset writer *)

Lemma dirname_join (p : path) (name : string) : dirname (join p [name]) = p.
Proof. unfold dirname, join. apply removelast_last. Qed.

Lemma output_paths_differ (w : world) : output_path w <> contents_path w.
Proof.
  unfold output_path, contents_path, join. intros H.
  apply app_inj_tail in H as [_ H]. discriminate.
Qed.

Lemma write_file_run (p : path) (c : file) (w : world) :
  p ∉ dirs w -> dirname p ∈ dirs w ->
  write_file p c w
  = if decide (p ∈ locked w) then Raised PermissionError w
    else Returned tt (set_files w (<[p := c]> (files w))).
Proof.
  intros Hp Hd. unfold write_file.
  rewrite (decide_False (P := p ∈ dirs w)) by exact Hp.
  rewrite (decide_True (P := dirname p ∈ dirs w)) by exact Hd.
  reflexivity.
Qed.

(** What [main] does, by the two write permissions. *)
Lemma main_run (R : rasterizer) (w : world) :
  output_dir w ∈ dirs w -> output_path w ∉ dirs w -> contents_path w ∉ dirs w ->
  exists icon, sized 1024 icon /\
    let w1 := say "Generating CardPro App Icon..." w in
    let w2 := say (String.append "Saved: " (path_string (output_path w)))
                (set_files w1 (<[output_path w := PngFile icon]> (files w))) in
    let w3 := say "Done! App icon generated successfully."
                (say (String.append "Updated: " (path_string (contents_path w)))
                   (set_files w2 (<[contents_path w := TextFile contents_json]> (files w2)))) in
    main R w = if decide (output_path w ∈ locked w) then Raised PermissionError w1
               else if decide (contents_path w ∈ locked w) then Raised PermissionError w2
               else Returned tt w3.
Proof.
  intros Hdir Hp1 Hp2.
  assert (Hd1 : dirname (output_path w) ∈ dirs w).
  { unfold output_path. now rewrite dirname_join. }
  assert (Hd2 : dirname (contents_path w) ∈ dirs w).
  { unfold contents_path. now rewrite dirname_join. }
  destruct (create_app_icon_total R 1024 ltac:(lia)) as (icon & Hsz & _ & Hrun).
  exists icon. split; [exact Hsz|]. cbv zeta.
  unfold main, bind, print, Image_save. rewrite Hrun.
  rewrite write_file_run by assumption. cbn [locked].
  destruct (decide (output_path w ∈ locked w)) as [Hl1|Hl1]; [reflexivity|].
  rewrite write_file_run by assumption. cbn [locked set_files].
  destruct (decide (contents_path w ∈ locked w)) as [Hl2|Hl2]; reflexivity.
Qed.

(** C4. With the asset-catalog directory in place and both files writable,
    [main] ends normally and leaves a file named [AppIcon.png] holding a
    1024 by 1024 raster, and a file named [Contents.json] holding the fixed
    text of the script, which reads back as the descriptor record; that
    text is the same for every rasterizer and every environment. *)
Theorem main_writes_icon_and_descriptor (R : rasterizer) (w : world) :
  output_dir w ∈ dirs w ->
  output_path w ∉ dirs w -> contents_path w ∉ dirs w ->
  output_path w ∉ locked w -> contents_path w ∉ locked w ->
  exists icon w',
    main R w = Returned tt w' /\
    List.last (output_path w) EmptyString = "AppIcon.png"%string /\
    files w' !! output_path w = Some (PngFile icon) /\
    width icon = 1024 /\ height icon = 1024 /\
    List.last (contents_path w) EmptyString = "Contents.json"%string /\
    files w' !! contents_path w = Some (TextFile contents_json) /\
    parse_json contents_json = Some descriptor.
Proof.
  intros Hdir Hp1 Hp2 Hl1 Hl2.
  destruct (main_run R w Hdir Hp1 Hp2) as (icon & [Hw Hh] & Hmain). cbv zeta in Hmain.
  rewrite (decide_False (P := output_path w ∈ locked w)) in Hmain by exact Hl1.
  rewrite (decide_False (P := contents_path w ∈ locked w)) in Hmain by exact Hl2.
  eexists icon, _. split; [exact Hmain|].
  split; [apply last_last|]. cbn [files say set_files].
  split.
  { rewrite lookup_insert_ne by (intros E; exact (output_paths_differ w (eq_sym E))).
    apply lookup_insert_eq. }
  split; [exact Hw|]. split; [exact Hh|].
  split; [apply last_last|].
  split; [apply lookup_insert_eq|].
  vm_compute. reflexivity.
Qed.

Lemma main_writes_icon_and_descriptor_witness :
  exists icon w',
    main Reference.raster Reference.checkout = Returned tt w' /\
    List.last (output_path Reference.checkout) EmptyString = "AppIcon.png"%string /\
    files w' !! output_path Reference.checkout = Some (PngFile icon) /\
    width icon = 1024 /\ height icon = 1024 /\
    List.last (contents_path Reference.checkout) EmptyString = "Contents.json"%string /\
    files w' !! contents_path Reference.checkout = Some (TextFile contents_json) /\
    parse_json contents_json = Some descriptor.
Proof.
  apply (main_writes_icon_and_descriptor Reference.raster Reference.checkout);
    unfold Reference.checkout; cbn [dirs locked].
  - apply elem_of_singleton_2. reflexivity.
  - intros H. apply elem_of_singleton_1 in H. discriminate.
  - intros H. apply elem_of_singleton_1 in H. discriminate.
  - apply not_elem_of_empty.
  - apply not_elem_of_empty.
Defined.

(** C9. The two writes happen image first, descriptor second, each
    replacing whatever the path held, and nothing is undone: when the image
    cannot be written the run stops with the files untouched; when the
    image is written and the descriptor cannot be, the run stops with the
    new [AppIcon.png] in place and the old descriptor as it was; when both
    can be written both paths hold the new contents, whatever they held
    before. *)
Theorem main_writes_in_order_no_rollback (R : rasterizer) (w : world) :
  output_dir w ∈ dirs w ->
  output_path w ∉ dirs w -> contents_path w ∉ dirs w ->
  exists icon, sized 1024 icon /\
    (output_path w ∈ locked w ->
       exists w', main R w = Raised PermissionError w' /\ files w' = files w) /\
    (output_path w ∉ locked w -> contents_path w ∈ locked w ->
       exists w', main R w = Raised PermissionError w' /\
         files w' = <[output_path w := PngFile icon]> (files w) /\
         files w' !! output_path w = Some (PngFile icon) /\
         files w' !! contents_path w = files w !! contents_path w) /\
    (output_path w ∉ locked w -> contents_path w ∉ locked w ->
       exists w', main R w = Returned tt w' /\
         files w' = <[contents_path w := TextFile contents_json]>
                      (<[output_path w := PngFile icon]> (files w))).
Proof.
  intros Hdir Hp1 Hp2.
  destruct (main_run R w Hdir Hp1 Hp2) as (icon & Hsz & Hmain). cbv zeta in Hmain.
  exists icon. split; [exact Hsz|]. split; [|split].
  - intros Hl1.
    rewrite (decide_True (P := output_path w ∈ locked w)) in Hmain by exact Hl1.
    eexists. split; [exact Hmain|]. reflexivity.
  - intros Hl1 Hl2.
    rewrite (decide_False (P := output_path w ∈ locked w)) in Hmain by exact Hl1.
    rewrite (decide_True (P := contents_path w ∈ locked w)) in Hmain by exact Hl2.
    eexists. split; [exact Hmain|]. cbn [files say set_files].
    split; [reflexivity|]. split; [apply lookup_insert_eq|].
    apply lookup_insert_ne, output_paths_differ.
  - intros Hl1 Hl2.
    rewrite (decide_False (P := output_path w ∈ locked w)) in Hmain by exact Hl1.
    rewrite (decide_False (P := contents_path w ∈ locked w)) in Hmain by exact Hl2.
    eexists. split; [exact Hmain|]. reflexivity.
Qed.

Lemma main_writes_in_order_no_rollback_witness :
  (output_path Reference.stale_checkout ∉ locked Reference.stale_checkout) /\
  (contents_path Reference.stale_checkout ∈ locked Reference.stale_checkout) /\
  exists icon w',
    sized 1024 icon /\
    main Reference.raster Reference.stale_checkout = Raised PermissionError w' /\
    files w' !! output_path Reference.stale_checkout = Some (PngFile icon) /\
    files w' !! contents_path Reference.stale_checkout = Some (TextFile "old descriptor").
Proof.
  assert (H1 : output_path Reference.stale_checkout ∉ locked Reference.stale_checkout).
  { unfold Reference.stale_checkout; cbn [locked].
    intros H. apply elem_of_singleton_1 in H. discriminate. }
  assert (H2 : contents_path Reference.stale_checkout ∈ locked Reference.stale_checkout).
  { unfold Reference.stale_checkout; cbn [locked].
    apply elem_of_singleton_2. reflexivity. }
  split; [exact H1|]. split; [exact H2|].
  destruct (main_writes_in_order_no_rollback Reference.raster Reference.stale_checkout)
    as (icon & Hsz & _ & Hstop & _).
  - unfold Reference.stale_checkout; cbn [dirs].
    apply elem_of_singleton_2. reflexivity.
  - unfold Reference.stale_checkout; cbn [dirs].
    intros H. apply elem_of_singleton_1 in H. discriminate.
  - unfold Reference.stale_checkout; cbn [dirs].
    intros H. apply elem_of_singleton_1 in H. discriminate.
  - destruct (Hstop H1 H2) as (w' & Hrun & _ & Hpng & Hold).
    exists icon, w'. split; [exact Hsz|]. split; [exact Hrun|]. split; [exact Hpng|].
    rewrite Hold. unfold Reference.stale_checkout; cbn [files].
    rewrite lookup_insert_ne by discriminate. apply lookup_insert_eq.
Defined.

(** * Further properties *)

(** ** Sizes that are not positive *)

(** X1. A negative size is refused by the very first statement: the call
    raises ValueError from [Image.new] and nothing else has happened. *)
Theorem create_app_icon_negative (R : rasterizer) (size : Z) (w : world) :
  size < 0 -> create_app_icon R size w = Raised ValueError w.
Proof.
  intros Hs. unfold create_app_icon, background, bind, Image_new.
  replace (size <? 0) with true by lia. reflexivity.
Qed.

Lemma create_app_icon_negative_witness :
  -1 < 0 /\
  create_app_icon Reference.raster (-1) Reference.checkout
  = Raised ValueError Reference.checkout.
Proof. split; [lia | apply (create_app_icon_negative Reference.raster (-1)); lia]. Defined.

(** X2. With size 0 neither loop runs a single iteration, so the division
    by [size] is never reached: the call returns an image with no pixels. *)
Theorem create_app_icon_zero (R : rasterizer) (w : world) :
  exists img, create_app_icon R 0 w = Returned img w /\ width img = 0 /\ height img = 0.
Proof.
  unfold create_app_icon, background, bind.
  rewrite Image_new_spec by lia.
  unfold gradient_background, radial_overlay, for_range.
  change (Z.to_nat 0) with O. cbn [for_loop]. unfold ret. cbv beta iota.
  rewrite back_card_spec, front_card_spec by lia.
  destruct (alpha_composite_spec 0 (Image 0 0 (fun _ _ => (0, 0, 0, 0))) (back_layer R 0) w)
    as [Hc1 Hc1s]; [split; reflexivity | apply sized_back_layer |].
  rewrite Hc1.
  destruct (alpha_composite_spec 0 _ (front_layer R 0) w Hc1s (sized_front_layer R 0))
    as [Hc2 [Hw Hh]].
  rewrite Hc2. eexists. split; [reflexivity|]. split; [exact Hw | exact Hh].
Qed.

(** ** The boxes of the drawing calls *)

Lemma draw_back_card_shapes (R : rasterizer) (size : Z) (img : image) :
  draw_back_card R size img
  = draw_rectangle (draw_shapes R (back_card_shapes size) img)
      (back_accent_rect size) (100, 160, 200, 255).
Proof. reflexivity. Qed.

Lemma draw_front_card_shapes (R : rasterizer) (size : Z) (img : image) :
  draw_front_card R size img
  = draw_shapes R (front_line_shapes size)
      (draw_rectangle (draw_shapes R (front_card_shapes size) img)
         (front_bar_rect size) (30, 100, 160, 255)).
Proof. reflexivity. Qed.

Lemma drawn_boxes_2048 :
  forallb (fun s => forallb (fun b => box_ordered b && box_in_canvas s b) (drawn_boxes s))
          (sizes_up_to 2048)
  = true.
Proof. vm_compute. reflexivity. Qed.

(** X3. For every size from 1 to 2048, each box the script hands to a
    drawing call (rounded rectangles, rectangles, arcs, the dot) has its
    second corner at or after its first in both axes and lies within the
    canvas; the card layers are exactly the shapes of those boxes drawn in
    order. *)
Theorem drawn_boxes_well_formed (R : rasterizer) (size : Z) :
  0 < size <= 2048 ->
  Forall (fun b => box_ordered b = true /\ box_in_canvas size b = true) (drawn_boxes size) /\
  (forall img,
     draw_back_card R size img
     = draw_rectangle (draw_shapes R (back_card_shapes size) img)
         (back_accent_rect size) (100, 160, 200, 255)) /\
  (forall img,
     draw_front_card R size img
     = draw_shapes R (front_line_shapes size)
         (draw_rectangle (draw_shapes R (front_card_shapes size) img)
            (front_bar_rect size) (30, 100, 160, 255))).
Proof.
  intros Hs. split; [|split].
  - apply List.Forall_forall. intros b Hb.
    pose proof (proj1 (forallb_forall _ _) drawn_boxes_2048 size
                  (In_sizes_up_to 2048 size Hs)) as Hall.
    pose proof (proj1 (forallb_forall _ _) Hall b Hb) as Hok.
    apply andb_prop in Hok. exact Hok.
  - intros img. apply draw_back_card_shapes.
  - intros img. apply draw_front_card_shapes.
Qed.

Lemma drawn_boxes_well_formed_witness :
  0 < 1 <= 2048 /\
  Forall (fun b => box_ordered b = true /\ box_in_canvas 1 b = true) (drawn_boxes 1).
Proof.
  split; [lia|]. apply (drawn_boxes_well_formed Reference.raster 1). lia.
Defined.

(** ** The background, pixel by pixel *)

Lemma dist_mirror (size d y : Z) :
  dist size (size / 2 - d) y = dist size (size / 2 + d) y.
Proof.
  unfold dist. f_equal. f_equal. ring.
Qed.

(** X4. The background is mirror-symmetric about the centre column: the
    pixels [d] columns to the left and [d] columns to the right of column
    [size // 2] are equal, in every row. *)
Theorem background_mirror (size d y : Z) (w : world) :
  0 < size ->
  0 <= size / 2 - d -> size / 2 + d < size -> 0 <= d -> 0 <= y < size ->
  exists bg,
    background size w = Returned bg w /\
    pixel_at bg (size / 2 - d) y = pixel_at bg (size / 2 + d) y.
Proof.
  intros Hs Hl Hr Hd Hy.
  destruct (background_spec size w Hs) as (bg & Hbg & _ & Hpx).
  exists bg. split; [exact Hbg|].
  rewrite !Hpx by lia. unfold background_color, overlay_color.
  now rewrite dist_mirror.
Qed.

Lemma background_mirror_witness :
  exists bg,
    background 5 Reference.checkout = Returned bg Reference.checkout /\
    pixel_at bg (5 / 2 - 2) 3 = pixel_at bg (5 / 2 + 2) 3.
Proof.
  apply (background_mirror 5 2 3 Reference.checkout); try lia;
    (change (5 / 2) with 2; lia).
Defined.

Lemma forallb_sizes (P : Z -> bool) (n size : Z) :
  forallb P (sizes_up_to n) = true -> 0 < size <= n -> P size = true.
Proof.
  intros Hall Hs.
  exact (proj1 (forallb_forall _ _) Hall size (In_sizes_up_to n size Hs)).
Qed.

Lemma rgba_eqb_eq (p q : rgba) : rgba_eqb p q = true -> p = q.
Proof.
  destruct p as [[[pr pg] pb] pa], q as [[[qr qg] qb] qa].
  unfold rgba_eqb. cbn [red green blue alpha]. intros H.
  apply andb_prop in H as [H Ha]. apply andb_prop in H as [H Hb].
  apply andb_prop in H as [Hr Hg].
  apply Z.eqb_eq in Hr, Hg, Hb, Ha. now subst.
Qed.

Lemma corner_kept_4096 : forallb corner_kept (sizes_up_to 4096) = true.
Proof. vm_compute. reflexivity. Qed.

Lemma centre_lightened_4096 :
  forallb (fun s => (s =? 1) || centre_lightened s) (sizes_up_to 4096) = true.
Proof. vm_compute. reflexivity. Qed.

Lemma radius_by_parity_4096 :
  forallb (fun s => (s =? 1) || radius_by_parity s) (sizes_up_to 4096) = true.
Proof. vm_compute. reflexivity. Qed.

(** X5. For every size from 1 to 4096 the overlay does not reach the
    top-left corner: pixel (0, 0) of the background is the first colour of
    the gradient, (20, 60, 120), opaque. *)
Theorem background_corner (size : Z) (w : world) :
  0 < size <= 4096 ->
  exists bg, background size w = Returned bg w /\ pixel_at bg 0 0 = (20, 60, 120, 255).
Proof.
  intros Hs.
  destruct (background_spec size w ltac:(lia)) as (bg & Hbg & _ & Hpx).
  exists bg. split; [exact Hbg|]. rewrite Hpx by lia.
  apply rgba_eqb_eq. exact (forallb_sizes corner_kept 4096 size corner_kept_4096 Hs).
Qed.

Lemma background_corner_witness :
  0 < 7 <= 4096 /\
  exists bg, background 7 Reference.checkout = Returned bg Reference.checkout /\
             pixel_at bg 0 0 = (20, 60, 120, 255).
Proof. split; [lia | apply (background_corner 7); lia]. Defined.

(** X6. For every size from 2 to 4096 the centre pixel
    [(size // 2, size // 2)] of the background is the gradient colour of
    its row with each colour band raised by exactly 30 (255 at most): the
    overlay is at full strength there. *)
Theorem background_centre (size : Z) (w : world) :
  2 <= size <= 4096 ->
  exists bg,
    background size w = Returned bg w /\
    let g := gradient_color size (size / 2) in
    pixel_at bg (size / 2) (size / 2)
    = (Z.min 255 (red g + 30), Z.min 255 (green g + 30), Z.min 255 (blue g + 30), 255).
Proof.
  intros Hs.
  destruct (background_spec size w ltac:(lia)) as (bg & Hbg & _ & Hpx).
  exists bg. split; [exact Hbg|]. cbv zeta.
  assert (Hc : 0 <= size / 2 < size).
  { split; [apply Z.div_pos; lia | apply Z.div_lt_upper_bound; lia]. }
  rewrite Hpx by exact Hc. apply rgba_eqb_eq.
  pose proof (forallb_sizes _ 4096 size centre_lightened_4096 ltac:(lia)) as H.
  cbv beta in H. replace (size =? 1) with false in H by lia. exact H.
Qed.

Lemma background_centre_witness :
  2 <= 1024 <= 4096 /\
  exists bg,
    background 1024 Reference.checkout = Returned bg Reference.checkout /\
    pixel_at bg 512 512 = (60, 130, 170, 255).
Proof.
  split; [lia|].
  destruct (background_centre 1024 Reference.checkout ltac:(lia)) as (bg & Hbg & Hpx).
  exists bg. split; [exact Hbg|]. exact Hpx.
Defined.

(** X7. For every size from 2 to 4096 the radius of the overlay,
    [(size // 2) * 1.2], is exactly [0.6 * size] when the size is even and
    strictly below it when the size is odd. *)
Theorem overlay_radius_by_parity (size : Z) :
  2 <= size <= 4096 ->
  (Z.even size = true -> (max_dist size =? stated_max_dist size)%float = true) /\
  (Z.even size = false -> (max_dist size <? stated_max_dist size)%float = true).
Proof.
  intros Hs.
  pose proof (forallb_sizes _ 4096 size radius_by_parity_4096 ltac:(lia)) as H.
  cbv beta in H. replace (size =? 1) with false in H by lia.
  unfold radius_by_parity in H. cbn [orb] in H.
  split; intros He; rewrite He in H; exact H.
Qed.

Lemma overlay_radius_by_parity_witness :
  2 <= 1023 <= 4096 /\
  (max_dist 1023 <? stated_max_dist 1023)%float = true.
Proof.
  split; [lia|].
  apply (proj2 (overlay_radius_by_parity 1023 ltac:(lia))). reflexivity.
Defined.

(** ** The order of the layers *)

Lemma band_opaque_256 :
  forallb (fun s => u8 (Z.shiftr (shift_for_div255 (u32 (u32 (s * 32640 + 0) + 128 * 2 ^ 7))) 7)
                    =? s)
          (rows 256)
  = true.
Proof. vm_compute. reflexivity. Qed.

Lemma band_opaque (s : Z) :
  0 <= s <= 255 ->
  u8 (Z.shiftr (shift_for_div255 (u32 (u32 (s * 32640 + 0) + 128 * 2 ^ 7))) 7) = s.
Proof.
  intros Hs. apply Z.eqb_eq.
  exact (proj1 (forallb_forall _ _) band_opaque_256 s (In_rows 256 s ltac:(lia))).
Qed.

(** An opaque source pixel replaces what is under it. *)
Lemma composite_pixel_opaque (dst src : rgba) :
  alpha src = 255 -> byte_bands src -> composite_pixel dst src = src.
Proof.
  destruct dst as [[[dr dg] db] da], src as [[[sr sg] sb] sa].
  unfold byte_bands. cbn [alpha red green blue]. intros -> (Hr & Hg & Hb & _).
  unfold composite_pixel. cbn [Z.eqb].
  change (255 - 255) with 0. rewrite Z.mul_0_r.
  change (u32 0) with 0. change (u32 (255 * 255 + 0)) with 65025.
  change (u32 (255 * 255 * 255 * 2 ^ 7) / 65025) with 32640.
  change (u32 (255 * 2 ^ 7 - 32640)) with 0.
  rewrite !Z.mul_0_r.
  rewrite (band_opaque sr Hr), (band_opaque sg Hg), (band_opaque sb Hb).
  reflexivity.
Qed.

(** X8. The front card lies over the back card, and both over the
    background: outside the indicator glyph, a pixel where the front layer
    is opaque shows the front layer; a pixel where the front layer is
    transparent and the back layer opaque shows the back layer; a pixel
    where both are transparent shows the background. *)
Theorem layers_back_under_front (R : rasterizer) (size x y : Z) (w : world) :
  0 < size -> 0 <= x < size -> 0 <= y < size ->
  glyph_cover R size x y = false ->
  exists bg back front img,
    background size w = Returned bg w /\
    back_card R size w = Returned back w /\
    front_card R size w = Returned front w /\
    create_app_icon R size w = Returned img w /\
    (alpha (pixel_at front x y) = 255 -> byte_bands (pixel_at front x y) ->
       pixel_at img x y = pixel_at front x y) /\
    (alpha (pixel_at front x y) = 0 ->
     alpha (pixel_at back x y) = 255 -> byte_bands (pixel_at back x y) ->
       pixel_at img x y = pixel_at back x y) /\
    (alpha (pixel_at front x y) = 0 -> alpha (pixel_at back x y) = 0 ->
       pixel_at img x y = pixel_at bg x y).
Proof.
  intros Hs Hx Hy Hg.
  destruct (background_spec size w Hs) as (bg & Hbg & _ & Hbgp).
  destruct (create_app_icon_pixels R size w Hs) as (img & Hrun & _ & Hpx).
  exists bg, (back_layer R size), (front_layer R size), img.
  split; [exact Hbg|]. split; [apply back_card_spec; lia|].
  split; [apply front_card_spec; lia|]. split; [exact Hrun|].
  rewrite (Hpx x y Hx Hy), (Hbgp x y Hx Hy). unfold icon_color. rewrite Hg.
  split; [|split].
  - intros Ha Hb. now apply composite_pixel_opaque.
  - intros Hf Ha Hb. rewrite (composite_pixel_transparent _ _ Hf).
    now apply composite_pixel_opaque.
  - intros Hf Hb.
    now rewrite (composite_pixel_transparent _ _ Hf), (composite_pixel_transparent _ _ Hb).
Qed.

Lemma layers_back_under_front_witness :
  exists img,
    create_app_icon Reference.raster 1024 Reference.checkout
    = Returned img Reference.checkout /\
    pixel_at img 700 400 = (255, 255, 255, 255) /\
    pixel_at img 845 450 = (240, 240, 245, 255).
Proof.
  destruct (layers_back_under_front Reference.raster 1024 700 400 Reference.checkout)
    as (bg & back & front & img & _ & _ & Hfront & Hrun & Htop & _);
    [lia | lia | lia | vm_compute; reflexivity |].
  destruct (layers_back_under_front Reference.raster 1024 845 450 Reference.checkout)
    as (bg' & back' & front' & img' & _ & Hback' & Hfront' & Hrun' & _ & Hmid & _);
    [lia | lia | lia | vm_compute; reflexivity |].
  rewrite Hrun in Hrun'. injection Hrun' as <-.
  rewrite front_card_spec in Hfront, Hfront' by lia.
  rewrite back_card_spec in Hback' by lia.
  injection Hfront as <-. injection Hfront' as <-. injection Hback' as <-.
  exists img. split; [exact Hrun|]. split.
  - rewrite Htop; [vm_compute; reflexivity | vm_compute; reflexivity |].
    vm_compute. repeat split; discriminate.
  - rewrite Hmid; [vm_compute; reflexivity | vm_compute; reflexivity
                   | vm_compute; reflexivity |].
    vm_compute. repeat split; discriminate.
Defined.

(** ** [main]: failures, frame and repetition *)

Lemma write_file_writable (p : path) (c : file) (w : world) :
  writable p w ->
  write_file p c w = Returned tt (set_files w (<[p := c]> (files w))).
Proof.
  intros (Hp & Hd & Hl). rewrite write_file_run by assumption.
  now rewrite (decide_False (P := p ∈ locked w)) by exact Hl.
Qed.

Lemma write_file_unwritable (p : path) (c : file) (w : world) :
  ~ writable p w -> exists e, write_file p c w = Raised e w.
Proof.
  intros Hn. unfold write_file.
  destruct (decide (p ∈ dirs w)) as [Hp|Hp]; [eexists; reflexivity|].
  destruct (decide (dirname p ∈ dirs w)) as [Hd|Hd]; [|eexists; reflexivity].
  destruct (decide (p ∈ locked w)) as [Hl|Hl]; [eexists; reflexivity|].
  exfalso. apply Hn. repeat split; assumption.
Qed.

Lemma writable_dec (p : path) (w : world) : writable p w \/ ~ writable p w.
Proof.
  unfold writable.
  destruct (decide (p ∈ dirs w)); [right; tauto|].
  destruct (decide (dirname p ∈ dirs w)); [|right; tauto].
  destruct (decide (p ∈ locked w)); [right; tauto|].
  left. tauto.
Qed.

(** [main] as its two writes, the icon being the one every call returns. *)
Lemma main_unfold (R : rasterizer) (w : world) (icon : image) :
  (forall w0, create_app_icon R 1024 w0 = Returned icon w0) ->
  main R w
  = match write_file (output_path w) (PngFile icon)
            (say "Generating CardPro App Icon..." w) with
    | Raised e w' => Raised e w'
    | Returned _ wa =>
        match write_file (contents_path w) (TextFile contents_json)
                (say (String.append "Saved: " (path_string (output_path w))) wa) with
        | Raised e w' => Raised e w'
        | Returned _ wb =>
            Returned tt
              (say "Done! App icon generated successfully."
                 (say (String.append "Updated: " (path_string (contents_path w))) wb))
        end
    end.
Proof.
  intros Hicon. unfold main, bind, print, Image_save. rewrite Hicon.
  destruct (write_file (output_path w) (PngFile icon) _) as [[] wa|e wa]; [|reflexivity].
  destruct (write_file (contents_path w) (TextFile contents_json) _) as [[] wb|e wb];
    reflexivity.
Qed.

(** The three ways a run can end. *)
Lemma main_outcome (R : rasterizer) (w : world) :
  exists icon, sized 1024 icon /\
    (forall w0, create_app_icon R 1024 w0 = Returned icon w0) /\
    let w1 := say "Generating CardPro App Icon..." w in
    let w2 := say (String.append "Saved: " (path_string (output_path w)))
                (set_files w1 (<[output_path w := PngFile icon]> (files w))) in
    let w3 := say "Done! App icon generated successfully."
                (say (String.append "Updated: " (path_string (contents_path w)))
                   (set_files w2 (<[contents_path w := TextFile contents_json]> (files w2)))) in
    (~ writable (output_path w) w /\ exists e, main R w = Raised e w1) \/
    (writable (output_path w) w /\ ~ writable (contents_path w) w /\
     exists e, main R w = Raised e w2) \/
    (writable (output_path w) w /\ writable (contents_path w) w /\
     main R w = Returned tt w3).
Proof.
  destruct (create_app_icon_total R 1024 ltac:(lia)) as (icon & Hsz & _ & Hicon).
  exists icon. split; [exact Hsz|]. split; [exact Hicon|]. cbv zeta.
  rewrite (main_unfold R w icon Hicon).
  destruct (writable_dec (output_path w) w) as [H1|H1].
  - rewrite (write_file_writable (output_path w) (PngFile icon)
               (say "Generating CardPro App Icon..." w) H1).
    destruct (writable_dec (contents_path w) w) as [H2|H2].
    + right. right. split; [exact H1|]. split; [exact H2|].
      rewrite (write_file_writable (contents_path w) (TextFile contents_json)
                 (say (String.append "Saved: " (path_string (output_path w)))
                    (set_files (say "Generating CardPro App Icon..." w)
                       (<[output_path w := PngFile icon]> (files w)))) H2).
      reflexivity.
    + right. left. split; [exact H1|]. split; [exact H2|].
      destruct (write_file_unwritable (contents_path w) (TextFile contents_json)
                  (say (String.append "Saved: " (path_string (output_path w)))
                     (set_files (say "Generating CardPro App Icon..." w)
                        (<[output_path w := PngFile icon]> (files w)))) H2) as [e He].
      exists e. cbn [files say] in He |- *. rewrite He. reflexivity.
  - left. split; [exact H1|].
    destruct (write_file_unwritable (output_path w) (PngFile icon)
                (say "Generating CardPro App Icon..." w) H1) as [e He].
    exists e. rewrite He. reflexivity.
Qed.

(** X9. [main] ends normally exactly when both output paths can be
    written: the asset-catalog directory exists, neither path names a
    directory, and neither is write-protected. *)
Theorem main_returns_iff_writable (R : rasterizer) (w : world) :
  (exists w', main R w = Returned tt w') <->
  (writable (output_path w) w /\ writable (contents_path w) w).
Proof.
  destruct (main_outcome R w) as (icon & _ & _ & Hcases). cbv zeta in Hcases.
  destruct Hcases as [(Hn & e & He) | [(H1 & Hn & e & He) | (H1 & H2 & Hr)]].
  - split; [intros [w' Hw']; rewrite He in Hw'; discriminate Hw' | intros [H1 _]; contradiction].
  - split; [intros [w' Hw']; rewrite He in Hw'; discriminate Hw' | intros [_ H2]; contradiction].
  - split; [intros _; split; assumption | intros _; eexists; exact Hr].
Qed.

(** X10. However a run ends, it leaves the directories, the write
    protections and every file other than [AppIcon.png] and
    [Contents.json] of the asset catalog as they were. *)
Theorem main_touches_only_outputs (R : rasterizer) (w : world) :
  let w' := world_of (main R w) in
  script_file w' = script_file w /\ dirs w' = dirs w /\ locked w' = locked w /\
  forall p, p <> output_path w -> p <> contents_path w -> files w' !! p = files w !! p.
Proof.
  destruct (main_outcome R w) as (icon & _ & _ & Hcases). cbv zeta in Hcases |- *.
  destruct Hcases as [(_ & e & He) | [(_ & _ & e & He) | (_ & _ & Hr)]].
  - rewrite He. cbn. repeat split; reflexivity.
  - rewrite He. cbn [world_of say set_files script_file dirs locked files].
    repeat split; try reflexivity.
    intros p Hp _. now apply lookup_insert_ne.
  - rewrite Hr. cbn [world_of say set_files script_file dirs locked files].
    repeat split; try reflexivity.
    intros p Hp Hc. rewrite lookup_insert_ne by (intros E; apply Hc; now rewrite E).
    now apply lookup_insert_ne.
Qed.

(** X11. A completed run can be repeated, and the second run leaves the
    file system exactly as the first did. *)
Theorem main_idempotent (R : rasterizer) (w w1 : world) :
  main R w = Returned tt w1 ->
  exists w2, main R w1 = Returned tt w2 /\
    files w2 = files w1 /\ dirs w2 = dirs w1 /\ locked w2 = locked w1.
Proof.
  intros Hfirst.
  destruct (main_outcome R w) as (icon & _ & Hicon & Hcases). cbv zeta in Hcases.
  destruct Hcases as [(_ & e & He) | [(_ & _ & e & He) | (H1 & H2 & Hr)]];
    try (rewrite He in Hfirst; discriminate Hfirst).
  rewrite Hr in Hfirst. injection Hfirst as <-.
  match goal with |- exists w2, main R ?w1 = _ /\ _ => set (wa := w1) end.
  destruct (main_outcome R wa) as (icon' & _ & Hicon' & Hcases'). cbv zeta in Hcases'.
  assert (icon' = icon) as ->.
  { pose proof (Hicon w) as E. rewrite (Hicon' w) in E. now injection E. }
  clear Hicon Hicon' Hr.
  destruct Hcases' as [(Hn & _) | [(_ & Hn & _) | (_ & _ & Hr')]].
  - exfalso. apply Hn. exact H1.
  - exfalso. apply Hn. exact H2.
  - eexists. split; [exact Hr'|]. split; [|split; reflexivity].
    change (<[contents_path w := TextFile contents_json]>
              (<[output_path w := PngFile icon]>
                 (<[contents_path w := TextFile contents_json]>
                    (<[output_path w := PngFile icon]> (files w))))
            = <[contents_path w := TextFile contents_json]>
                (<[output_path w := PngFile icon]> (files w))).
    apply map_eq. intros k.
    destruct (decide (k = contents_path w)) as [->|Hk1].
    + now rewrite !lookup_insert_eq.
    + rewrite !(lookup_insert_ne _ (contents_path w) k) by congruence.
      destruct (decide (k = output_path w)) as [->|Hk2].
      * now rewrite !lookup_insert_eq.
      * repeat rewrite lookup_insert_ne by congruence. reflexivity.
Qed.

Lemma checkout_writable :
  writable (output_path Reference.checkout) Reference.checkout /\
  writable (contents_path Reference.checkout) Reference.checkout.
Proof.
  unfold writable, Reference.checkout; cbn [dirs locked].
  split; (split; [|split]).
  - intros H. apply elem_of_singleton_1 in H. discriminate H.
  - apply elem_of_singleton_2. reflexivity.
  - apply not_elem_of_empty.
  - intros H. apply elem_of_singleton_1 in H. discriminate H.
  - apply elem_of_singleton_2. reflexivity.
  - apply not_elem_of_empty.
Qed.

Lemma main_idempotent_witness :
  exists w1 w2,
    main Reference.raster Reference.checkout = Returned tt w1 /\
    main Reference.raster w1 = Returned tt w2 /\
    files w2 = files w1.
Proof.
  destruct (main_outcome Reference.raster Reference.checkout) as (icon & _ & _ & Hcases).
  cbv zeta in Hcases. destruct checkout_writable as [H1 H2].
  destruct Hcases as [(Hn & _) | [(_ & Hn & _) | (_ & _ & Hr)]];
    [contradiction | contradiction |].
  destruct (main_idempotent Reference.raster Reference.checkout _ Hr) as (w2 & Hr2 & Hf & _).
  eexists _, w2. split; [exact Hr|]. split; [exact Hr2 | exact Hf].
Defined.

(** X12. Standard output tells how far a run got.  A run that returns has
    appended the four lines of [run_log] and both files hold their new
    contents.  A run that raises has appended either the first line only,
    and then no file has changed (the image was not written), or the first
    two lines, and then [AppIcon.png] holds the new image while the
    descriptor is as it was; the closing "Done!" line is never printed by a
    run that raises. *)
Theorem main_log (R : rasterizer) (w : world) :
  exists icon : image, sized 1024 icon /\
    match main R w return Prop with
    | Returned _ w' =>
        stdout w' = (stdout w ++ run_log w)%list /\
        files w' !! output_path w = Some (PngFile icon) /\
        files w' !! contents_path w = Some (TextFile contents_json)
    | Raised _ w' =>
        (stdout w' = (stdout w ++ firstn 1 (run_log w))%list /\
         files w' = files w) \/
        (stdout w' = (stdout w ++ firstn 2 (run_log w))%list /\
         files w' !! output_path w = Some (PngFile icon) /\
         files w' !! contents_path w = files w !! contents_path w)
    end.
Proof.
  destruct (main_outcome R w) as (icon & Hsz & _ & Hcases). cbv zeta in Hcases.
  exists icon. split; [exact Hsz|].
  destruct Hcases as [(_ & e & He) | [(_ & _ & e & He) | (_ & _ & Hr)]].
  - rewrite He. left. split; reflexivity.
  - rewrite He. right. cbn [stdout files say set_files run_log firstn].
    split; [now rewrite <- app_assoc|].
    split; [apply lookup_insert_eq|].
    apply lookup_insert_ne, output_paths_differ.
  - rewrite Hr. cbn [stdout files say set_files run_log].
    split; [now rewrite <- !app_assoc|].
    split; [|apply lookup_insert_eq].
    rewrite lookup_insert_ne by (intros E; exact (output_paths_differ w (eq_sym E))).
    apply lookup_insert_eq.
Qed.

(** X13. Without the asset-catalog directory the run stops at the first
    write with FileNotFoundError: one line has been printed and no file
    has been created or changed. *)
Theorem main_missing_directory (R : rasterizer) (w : world) :
  output_path w ∉ dirs w -> output_dir w ∉ dirs w ->
  exists w',
    main R w = Raised FileNotFoundError w' /\
    files w' = files w /\
    stdout w' = (stdout w ++ ["Generating CardPro App Icon..."%string])%list.
Proof.
  intros Hp Hd.
  destruct (create_app_icon_total R 1024 ltac:(lia)) as (icon & _ & _ & Hicon).
  rewrite (main_unfold R w icon Hicon). unfold write_file at 1. cbn [dirs say].
  rewrite (decide_False (P := output_path w ∈ dirs w)) by exact Hp.
  assert (Hdn : dirname (output_path w) = output_dir w) by apply dirname_join.
  rewrite (decide_False (P := dirname (output_path w) ∈ dirs w))
    by (rewrite Hdn; exact Hd).
  eexists. split; [reflexivity|]. split; reflexivity.
Qed.

Lemma main_missing_directory_witness :
  exists w',
    main Reference.raster bare_checkout = Raised FileNotFoundError w' /\
    files w' = files bare_checkout /\
    stdout w' = ["Generating CardPro App Icon..."%string].
Proof.
  apply (main_missing_directory Reference.raster bare_checkout);
    unfold bare_checkout; cbn [dirs]; apply not_elem_of_empty.
Defined.

(** ** The gradient, row by row *)

(** X14. The gradient is vertical: after the gradient pass every pixel of
    a row has the same colour, whatever the image held before. *)
Theorem gradient_rows_uniform (size x1 x2 y : Z) (img : image) (w : world) :
  0 < size -> sized size img ->
  0 <= x1 < size -> 0 <= x2 < size -> 0 <= y < size ->
  exists g,
    gradient_background size img w = Returned g w /\
    pixel_at g x1 y = pixel_at g x2 y /\
    alpha (pixel_at g x1 y) = 255.
Proof.
  intros Hs Hsz H1 H2 Hy.
  destruct (gradient_background_spec size img w Hs Hsz) as (g & Hg & _ & Hpx).
  exists g. split; [exact Hg|].
  rewrite (Hpx x1 y H1 Hy), (Hpx x2 y H2 Hy). split; reflexivity.
Qed.

Lemma gradient_rows_uniform_witness :
  exists g,
    gradient_background 4 (blank 4) Reference.checkout = Returned g Reference.checkout /\
    pixel_at g 0 2 = pixel_at g 3 2 /\
    alpha (pixel_at g 0 2) = 255.
Proof.
  apply (gradient_rows_uniform 4 0 3 2 (blank 4) Reference.checkout);
    try lia; split; reflexivity.
Defined.
